(** * Askify dubbing pipeline: a shallow embedding of [dub.py], of step 3 of
    the dubbing tab of [app.py] and of [api_dub_status] of [main.py].

    Python text is a list of Unicode code points, bytes are [Byte.byte].
    Wall-clock readings and sleep durations are Python floats in the source;
    they are rationals here, so the arithmetic on them is exact.  The
    external collaborators (dubbing provider, clock, downloader, language
    model, file system) are oracles gathered in an environment, and every
    call to one of them is counted or logged in an explicit world. *)

From Stdlib Require Import List Bool Arith NArith ZArith QArith Qminmax Lia.
From Stdlib.Strings Require Import Ascii String Byte.
Import ListNotations.

Set Implicit Arguments.
Local Close Scope Q_scope.

(** ** Python text *)

Definition str := list N.

(** A literal of the source, as code points. *)
Definition u (s : string) : str :=
  List.map N_of_ascii (list_ascii_of_string s).

Definition str_eqb (a b : str) : bool :=
  if list_eq_dec N.eq_dec a b then true else false.

(** [x in seq] for a tuple or list of strings. *)
Definition str_in (x : str) (l : list str) : bool := existsb (str_eqb x) l.

(** The part of the Unicode character database that Python consults for
    characters outside ASCII.  It belongs to the interpreter, not to the
    repository, and changes with the Unicode version: it is a parameter.
    [str.upper] and [str.lower] are given on whole strings because lower-casing
    is context dependent outside ASCII. *)
Record UnicodeDb := {
  uc_isdecimal : N -> bool;   (* category Nd: what \d matches *)
  uc_isspace : N -> bool;     (* what \s matches and str.strip() removes *)
  uc_upper : str -> str;
  uc_lower : str -> str
}.

(** A database with nothing outside ASCII, for concrete runs. *)
Definition ascii_only_db : UnicodeDb :=
  {| uc_isdecimal := fun _ => false;
     uc_isspace := fun _ => false;
     uc_upper := fun s => s;
     uc_lower := fun s => s |}.

Definition is_ascii (c : N) : bool := (c <? 128)%N.

Definition ascii_upper (c : N) : N :=
  if ((97 <=? c) && (c <=? 122))%N then (c - 32)%N else c.

Definition ascii_lower (c : N) : N :=
  if ((65 <=? c) && (c <=? 90))%N then (c + 32)%N else c.

(** Whitespace below 128: tab, LF, VT, FF, CR, the separators FS GS RS US,
    and the space. *)
Definition ascii_isspace (c : N) : bool :=
  ((9 <=? c) && (c <=? 13) || (28 <=? c) && (c <=? 32))%N.

Definition ascii_isdecimal (c : N) : bool := ((48 <=? c) && (c <=? 57))%N.

Section Text.

Variable db : UnicodeDb.

Definition py_isspace (c : N) : bool :=
  if is_ascii c then ascii_isspace c else uc_isspace db c.

Definition py_isdecimal (c : N) : bool :=
  if is_ascii c then ascii_isdecimal c else uc_isdecimal db c.

Definition py_upper (s : str) : str :=
  if forallb is_ascii s then List.map ascii_upper s else uc_upper db s.

Definition py_lower (s : str) : str :=
  if forallb is_ascii s then List.map ascii_lower s else uc_lower db s.

Fixpoint lstrip (s : str) : str :=
  match s with
  | c :: s' => if py_isspace c then lstrip s' else s
  | [] => []
  end.

Definition rstrip (s : str) : str := rev (lstrip (rev s)).

(** [s.strip()] *)
Definition py_strip (s : str) : str := rstrip (lstrip s).

End Text.

(** ** Python values read by the pipeline *)

(** An attribute or key of a provider reply: not there at all, there with
    [None], or there with a value. *)
Inductive field (A : Type) : Type :=
| Absent : field A
| Null : field A
| Val : A -> field A.
Arguments Absent {A}.
Arguments Null {A}.
Arguments Val {A} _.

(** [d.get(k)] and [getattr(o, k, None)]: a missing entry reads as [None]. *)
Definition get_or_none {A} (f : field A) : field A :=
  match f with Absent => Null | _ => f end.

(** Truth value of [None] or a string. *)
Definition truthy (f : field str) : bool :=
  match f with
  | Val (_ :: _) => true
  | _ => false
  end.

(** [a or b] *)
Definition py_or (a b : field str) : field str := if truthy a then a else b.

(** [str(d.get(k, ""))] for a string-or-None entry. *)
Definition str_of_field (f : field str) : str :=
  match f with
  | Absent => []
  | Null => u "None"
  | Val s => s
  end.

Record descriptor := {
  download_url : field str;
  download_srt_url : field str
}.

Record result_dict := {
  dubbed_url : field str;
  video_url : field str;
  output_url : field str;
  subtitles_url : field str;
  srt_url : field str;
  captions_url : field str
}.

(** The normalized status mapping, and the namespace built from it. *)
Record status_dict := {
  status : field str;
  download_details : field (list descriptor);
  result : field result_dict
}.

(** The three shapes of provider reply that [poll_job_until_complete]
    accepts: an object with [to_dict()], an object with [__dict__], and
    anything [dict()] takes. *)
Inductive provider_status :=
| HasToDict (d : status_dict)
| HasDunderDict (d : status_dict)
| MappingLike (d : status_dict).

(** ** Exceptions, calls and results *)

Inductive exn :=
| ValueError (msg : str)
| TimeoutError (msg : str)
| AttributeError (attr : str)    (* reading an attribute that is not there *)
| OtherException (msg : str)     (* any other subclass of Exception *)
| BaseOnly (msg : str).          (* BaseException outside Exception *)

(** [str(e)]; for AttributeError the class name Python prints first is left
    out. *)
Definition exn_msg (e : exn) : str :=
  match e with
  | AttributeError a => u "object has no attribute '" ++ a ++ u "'"
  | ValueError m | TimeoutError m | OtherException m | BaseOnly m => m
  end.

(** What [except Exception] catches. *)
Definition is_Exception (e : exn) : bool :=
  match e with BaseOnly _ => false | _ => true end.

(** What a call to a collaborator does. *)
Inductive call (A : Type) : Type :=
| Returns : A -> call A
| Raises : exn -> call A.
Arguments Returns {A} _.
Arguments Raises {A} _.

(** What a function of the repository does; [Diverge] says that a loop has
    not ended within the fuel given. *)
Inductive res (A : Type) : Type :=
| Ok : A -> res A
| Raise : exn -> res A
| Diverge : res A.
Arguments Ok {A} _.
Arguments Raise {A} _.
Arguments Diverge {A}.

(** ** The outside world *)

(** The reply of [jobs.create]: a dict, or an object whose attributes are
    read with [getattr]; [dunder_dict] is [Some x] when reading [__dict__]
    of the object fails with [x]. *)
Inductive create_reply :=
| ReplyDict (id job_id : field str)
| ReplyObject (id job_id : field str) (dunder_dict : option exn).

Inductive event :=
| EvOpen (path : str)
| EvCreate (target_locales : list str) (file_name : str) (file : list byte)
    (priority : str)
| EvDownload (url : str)
| EvChat (prompt : str).

(** The collaborators.  The clock and the status endpoint answer by the
    number of the call (from 0), the others by their arguments. *)
Record env := {
  time_time : nat -> Q;
  get_status : nat -> str -> call provider_status;
  open_rb : str -> call (list byte);
  jobs_create : list str -> str -> list byte -> str -> call create_reply;
  requests_get : str -> call (list byte);
  chat_invoke : str -> call str
}.

(** What has been done to the outside so far. *)
Record world := {
  clock_reads : nat;
  status_queries : nat;
  slept : list Q;           (* arguments of time.sleep, latest first *)
  events : list event       (* latest first *)
}.

Definition world0 : world :=
  {| clock_reads := 0; status_queries := 0; slept := []; events := [] |}.

Definition read_clock (e : env) (w : world) : Q * world :=
  (time_time e (clock_reads w),
   {| clock_reads := S (clock_reads w);
      status_queries := status_queries w;
      slept := slept w;
      events := events w |}).

Definition query (e : env) (job_id : str) (w : world)
  : call provider_status * world :=
  (get_status e (status_queries w) job_id,
   {| clock_reads := clock_reads w;
      status_queries := S (status_queries w);
      slept := slept w;
      events := events w |}).

(** [time.sleep(d)]: a negative length is refused with ValueError. *)
Definition sleep (d : Q) (w : world) : call unit * world :=
  if Qlt_le_dec d 0%Q
  then (Raises (ValueError (u "sleep length must be non-negative")), w)
  else (Returns tt,
        {| clock_reads := clock_reads w;
           status_queries := status_queries w;
           slept := d :: slept w;
           events := events w |}).

Definition log (ev : event) (w : world) : world :=
  {| clock_reads := clock_reads w;
     status_queries := status_queries w;
     slept := slept w;
     events := ev :: events w |}.

(** ** Job submission *)

Definition TARGET_LOCALES : list str :=
  List.map u
  [ "en_US";"en_UK";"en_IN";"en_SCOTT";"en_AU";
    "fr_FR";"de_DE";"es_ES";"es_MX";"it_IT";"pt_BR";"pl_PL";
    "hi_IN";"ko_KR";"ta_IN";"bn_IN";"ja_JP";"zh_CN";"nl_NL";"fi_FI";
    "ru_RU";"tr_TR";"uk_UA";"da_DK";"id_ID";"ro_RO";"nb_NO" ]%string.

(** [os.path.basename] with the POSIX separator: what follows the last
    slash. *)
Fixpoint basename (p : str) : str :=
  match p with
  | [] => []
  | c :: p' =>
      if existsb (N.eqb 47) p' then basename p'
      else if N.eqb c 47 then p' else p
  end.

(** The namespace that [create_dub_job] returns. *)
Record dub_job := {
  job_ident : field str;       (* attribute [id] *)
  raw : create_reply
}.

Definition create_dub_job (e : env) (file_path target_locale priority : str)
    (w : world) : res dub_job * world :=
  if negb (str_in target_locale TARGET_LOCALES) then
    (Raise (ValueError (u "target_locale '" ++ target_locale
                          ++ u "' not in supported TARGET_LOCALES.")), w)
  else
    let w1 := log (EvOpen file_path) w in
    match open_rb e file_path with
    | Raises x => (Raise x, w1)
    | Returns f =>
        let w2 := log (EvCreate [target_locale] (basename file_path) f
                         priority) w1 in
        match jobs_create e [target_locale] (basename file_path) f priority
        with
        | Raises x => (Raise x, w2)
        | Returns (ReplyDict i j as r) =>
            (Ok {| job_ident := py_or (get_or_none i) (get_or_none j);
                   raw := r |}, w2)
        | Returns (ReplyObject i j dd as r) =>
            let ident := py_or (get_or_none i) (get_or_none j) in
            match dd with
            | None => (Ok {| job_ident := ident; raw := r |}, w2)
            | Some x =>
                if is_Exception x then
                  (Raise (ValueError (u "Unexpected response format: "
                                        ++ exn_msg x)), w2)
                else (Raise x, w2)
            end
        end
    end.

Definition default_priority : str := u "LOW".

(** ** The poller *)

Definition to_status_dict (s : provider_status) : status_dict :=
  match s with
  | HasToDict d => d
  | HasDunderDict d => d
  | MappingLike d => d
  end.

Definition terminal_statuses : list str :=
  [u "COMPLETED"; u "FAILED"; u "ERROR"].

(** [min(poll_interval * (1 + attempt // 10), 15)] *)
Definition sleep_time (poll_interval : Q) (attempt : Z) : Q :=
  Qmin (poll_interval * inject_Z (1 + attempt / 10)%Z)%Q 15%Q.

Section Poller.

Variable db : UnicodeDb.
Variable e : env.

(** [str(status_dict.get("status", "")).upper()] *)
Definition upper_status (d : status_dict) : str :=
  py_upper db (str_of_field (status d)).

Definition is_terminal (d : status_dict) : bool :=
  str_in (upper_status d) terminal_statuses.

(** The [while True] loop, one iteration per unit of fuel. *)
Fixpoint poll_loop (fuel : nat) (job_id : str) (poll_interval timeout_sec : Q)
    (start : Q) (attempt : Z) (w : world) : res status_dict * world :=
  match fuel with
  | O => (Diverge, w)
  | S fuel' =>
      let (r, w1) := query e job_id w in
      match r with
      | Raises x => (Raise x, w1)
      | Returns st =>
          let status_dict := to_status_dict st in
          if is_terminal status_dict then (Ok status_dict, w1)
          else
            let (now, w2) := read_clock e w1 in
            if Qlt_le_dec timeout_sec (now - start)%Q
            then (Raise (TimeoutError (u "Polling timed out.")), w2)
            else
              let attempt := (attempt + 1)%Z in
              let (r3, w3) := sleep (sleep_time poll_interval attempt) w2 in
              match r3 with
              | Returns _ =>
                  poll_loop fuel' job_id poll_interval timeout_sec start
                    attempt w3
              | Raises x => (Raise x, w3)
              end
      end
  end.

Definition poll_job_until_complete (fuel : nat) (job_id : str)
    (poll_interval timeout_sec : Q) (w : world) : res status_dict * world :=
  let (start, w0) := read_clock e w in
  poll_loop fuel job_id poll_interval timeout_sec start 0 w0.

End Poller.

Definition default_poll_interval : Q := 3%Q.
Definition default_timeout_sec : Q := 1800%Q.

(** [download_url_bytes]: the body of the reply, or the transport or HTTP
    error raised by [requests.get] and [raise_for_status]. *)
Definition download_url_bytes (e : env) (url : str) (w : world)
  : call (list byte) * world :=
  (requests_get e url, log (EvDownload url) w).

(** ** UTF-8 *)

Definition is_cont (b : N) : bool := ((128 <=? b) && (b <=? 191))%N.

(** A well-formed two-byte sequence: C2..DF, then a continuation byte. *)
Definition is_seq2 (b1 b2 : N) : bool :=
  ((194 <=? b1) && (b1 <=? 223))%N && is_cont b2.

(** A well-formed three-byte sequence; E0 excludes the overlong forms and ED
    the surrogates. *)
Definition is_seq3 (b1 b2 b3 : N) : bool :=
  ((224 <=? b1) && (b1 <=? 239))%N && is_cont b2 && is_cont b3
  && (if (b1 =? 224)%N then (160 <=? b2)%N else true)
  && (if (b1 =? 237)%N then (b2 <=? 159)%N else true).

(** A well-formed four-byte sequence; F0 excludes the overlong forms and F4
    what lies above U+10FFFF. *)
Definition is_seq4 (b1 b2 b3 b4 : N) : bool :=
  ((240 <=? b1) && (b1 <=? 244))%N && is_cont b2 && is_cont b3 && is_cont b4
  && (if (b1 =? 240)%N then (144 <=? b2)%N else true)
  && (if (b1 =? 244)%N then (b2 <=? 143)%N else true).

Definition cp2 (b1 b2 : N) : N := ((b1 - 192) * 64 + (b2 - 128))%N.
Definition cp3 (b1 b2 b3 : N) : N :=
  ((b1 - 224) * 4096 + (b2 - 128) * 64 + (b3 - 128))%N.
Definition cp4 (b1 b2 b3 b4 : N) : N :=
  ((b1 - 240) * 262144 + (b2 - 128) * 4096 + (b3 - 128) * 64 + (b4 - 128))%N.

(** Decoding with [errors="ignore"] over byte values: a well-formed sequence
    gives its code point; at any other byte the decoder drops bytes and goes
    on.  The bytes it drops after the first are continuation bytes, which
    are dropped one by one as well, so one byte is dropped at a time. *)
Fixpoint decode_values (bs : list N) : str :=
  match bs with
  | [] => []
  | b1 :: t1 =>
      let skip := decode_values t1 in
      if (b1 <? 128)%N then b1 :: skip
      else
        match t1 with
        | [] => skip
        | b2 :: t2 =>
            if is_seq2 b1 b2 then cp2 b1 b2 :: decode_values t2
            else
              match t2 with
              | [] => skip
              | b3 :: t3 =>
                  if is_seq3 b1 b2 b3 then cp3 b1 b2 b3 :: decode_values t3
                  else
                    match t3 with
                    | [] => skip
                    | b4 :: t4 =>
                        if is_seq4 b1 b2 b3 b4
                        then cp4 b1 b2 b3 b4 :: decode_values t4
                        else skip
                    end
              end
        end
  end.

(** [b.decode("utf-8", errors="ignore")] *)
Definition utf8_decode_ignore (b : list byte) : str :=
  decode_values (List.map Byte.to_N b).

(** The byte values of one code point; surrogates and values above U+10FFFF
    have no encoding. *)
Definition encode_point (c : N) : option (list N) :=
  if (c <? 128)%N then Some [c]
  else if (c <? 2048)%N then Some [192 + c / 64; 128 + c mod 64]%N
  else if (c <? 65536)%N then
    if ((55296 <=? c) && (c <=? 57343))%N then None
    else Some [224 + c / 4096; 128 + (c / 64) mod 64; 128 + c mod 64]%N
  else if (c <? 1114112)%N then
    Some [240 + c / 262144; 128 + (c / 4096) mod 64;
          128 + (c / 64) mod 64; 128 + c mod 64]%N
  else None.

Fixpoint encode_values (s : str) : option (list N) :=
  match s with
  | [] => Some []
  | c :: s' =>
      match encode_point c, encode_values s' with
      | Some bs, Some rest => Some (bs ++ rest)
      | _, _ => None
      end
  end.

Definition byte_of_value (n : N) : byte :=
  match Byte.of_N n with Some b => b | None => x00 end.

(** [s.encode("utf-8")]; [None] stands for UnicodeEncodeError. *)
Definition utf8_encode (s : str) : option (list byte) :=
  option_map (List.map byte_of_value) (encode_values s).

(** ** The regular expressions of [srt_to_plain_text] *)

Inductive char_class :=
| Digit                 (* \d *)
| Space                 (* \s *)
| Lit (c : N).

(** The constructs that the three patterns use.  [Rep k n] is the greedy
    repetition of a class at least [n] times: [\d+] is [Rep Digit 1], [\s*]
    is [Rep Space 0], [\n{2,}] is [Rep (Lit 10) 2].  [Bol] and [Eol] are [^]
    and [$] under [(?m)]. *)
Inductive atom :=
| One (k : char_class)
| Rep (k : char_class) (least : nat)
| Bol
| Eol.

Definition regex := list atom.

Definition NL : N := 10.

Section Regex.

Variable db : UnicodeDb.

Definition in_class (k : char_class) (c : N) : bool :=
  match k with
  | Digit => py_isdecimal db c
  | Space => py_isspace db c
  | Lit x => N.eqb x c
  end.

(** [^] under MULTILINE: at the start of the text or just after a newline.
    [prev] is the character before the current position. *)
Definition at_bol (prev : option N) : bool :=
  match prev with
  | None => true
  | Some c => N.eqb c NL
  end.

(** [$] under MULTILINE: at the end of the text or just before a newline. *)
Definition at_eol (s : str) : bool :=
  match s with
  | [] => true
  | c :: _ => N.eqb c NL
  end.

(** Greedy repetition with backtracking: take one more character of the
    class when there is one, and only when the rest of the pattern fails
    after that, stop here (if enough have been taken). *)
Fixpoint rep_greedy (k : char_class) (cont : option N -> str -> option str)
    (least : nat) (prev : option N) (s : str) : option str :=
  let stop := match least with O => cont prev s | S _ => None end in
  match s with
  | c :: s' =>
      if in_class k c then
        match rep_greedy k cont (pred least) (Some c) s' with
        | Some rest => Some rest
        | None => stop
        end
      else stop
  | [] => stop
  end.

(** The backtracking matcher anchored at the current position: the text left
    after the first match in the order of the engine's search, if any. *)
Fixpoint match_here (r : regex) (prev : option N) (s : str) : option str :=
  match r with
  | [] => Some s
  | One k :: r' =>
      match s with
      | c :: s' => if in_class k c then match_here r' (Some c) s' else None
      | [] => None
      end
  | Rep k least :: r' => rep_greedy k (match_here r') least prev s
  | Bol :: r' => if at_bol prev then match_here r' prev s else None
  | Eol :: r' => if at_eol s then match_here r' prev s else None
  end.

(** [re.sub] from the current position: the leftmost match is replaced and
    the scan goes on after it.  [skip] counts the characters of a match
    already replaced that are still to be passed over. *)
Fixpoint sub_from (r : regex) (repl : str) (skip : nat) (prev : option N)
    (s : str) : str :=
  match s with
  | [] =>
      match skip, match_here r prev [] with
      | O, Some _ => repl
      | _, _ => []
      end
  | c :: s' =>
      match skip with
      | S n => sub_from r repl n (Some c) s'
      | O =>
          match match_here r prev s with
          | Some rest =>
              match List.length s - List.length rest with
              | O => repl ++ c :: sub_from r repl 0 (Some c) s'
              | S n => repl ++ sub_from r repl n (Some c) s'
              end
          | None => c :: sub_from r repl 0 (Some c) s'
          end
      end
  end.

(** [re.sub(r, repl, s)] *)
Definition re_sub (r : regex) (repl s : str) : str :=
  sub_from r repl 0 None s.

Definition lit (s : string) : regex := List.map (fun c => One (Lit c)) (u s).

Definition digits (n : nat) : regex := repeat (One Digit) n.

(** [\d{2}:\d{2}:\d{2},\d{3}] *)
Definition timestamp : regex :=
  digits 2 ++ lit ":" ++ digits 2 ++ lit ":" ++ digits 2 ++ lit ","
  ++ digits 3.

(** [\d+\s*\n\d{2}:\d{2}:\d{2},\d{3}\s*-->\s*\d{2}:\d{2}:\d{2},\d{3}] *)
Definition cue_header : regex :=
  [Rep Digit 1; Rep Space 0; One (Lit NL)] ++ timestamp
  ++ [Rep Space 0] ++ lit "-->" ++ [Rep Space 0] ++ timestamp.

(** [\n{2,}] *)
Definition blank_run : regex := [Rep (Lit NL) 2].

(** [(?m)^\d+\s*$] *)
Definition number_line : regex := [Bol; Rep Digit 1; Rep Space 0; Eol].

(** The body of [srt_to_plain_text] after decoding. *)
Definition normalize_text (text : str) : str :=
  let text := re_sub cue_header [] text in
  let text := re_sub blank_run [NL] text in
  let text := re_sub number_line [] text in
  py_strip db text.

Definition srt_to_plain_text (srt_bytes : list byte) : str :=
  normalize_text (utf8_decode_ignore srt_bytes).

End Regex.

Definition bytes_of (s : string) : list byte := list_byte_of_string s.

(** ** Notes from a transcript *)

(** [NOTES_PROMPT.format(text=text)]; the dash of "4-7" in the template is
    U+2013. *)
Definition NOTES_PROMPT (text : str) : str :=
  [NL]
  ++ u "You are a helpful teacher. Create compact class notes in bullet "
  ++ u "points from the following transcript text."
  ++ [NL; NL] ++ u "Rules:" ++ [NL]
  ++ u "- 4" ++ [8211%N] ++ u "7 concise bullets." ++ [NL]
  ++ u "- Keep each bullet <= 2 lines." ++ [NL]
  ++ u "- No new facts not present in text." ++ [NL]
  ++ u "- Use plain language." ++ [NL; NL]
  ++ u "Transcript:" ++ [NL] ++ text ++ [NL; NL]
  ++ u "Notes:" ++ [NL].

Definition generate_notes_from_text (db : UnicodeDb) (e : env) (text : str)
    (w : world) : res str * world :=
  let prompt_text := NOTES_PROMPT text in
  let w1 := log (EvChat prompt_text) w in
  match chat_invoke e prompt_text with
  | Returns content => (Ok (py_strip db content), w1)
  | Raises x =>
      if is_Exception x
      then (Ok (u "- (Error generating notes) " ++ exn_msg x), w1)
      else (Raise x, w1)
  end.

(** ** Step 3 of the dubbing tab: poll, then resolve the downloads *)

(** The messages of [st.error], each followed by [st.stop()]. *)
Inductive ui_error :=
| DidNotComplete (st : str)      (* "Dub job did not complete. Status: ..." *)
| NoDownloadDetails              (* "No download details returned." *)
| NoDubbedMedia                  (* "No dubbed video found." *)
| TimedOut      (* "Dubbing took too long and timed out. Please retry later." *)
| ErrorDuringDubbing (x : exn).  (* "Error during dubbing: ..." *)

Inductive step3_result :=
| Fetched (dubbed_video_bytes : list byte) (srt_bytes : option (list byte))
| Stopped (err : ui_error)
| Escaped (x : exn)              (* not caught by the handlers of the step *)
| StillPolling.                  (* the poll loop has not ended in the fuel *)

(** The handlers of the [try]: [except TimeoutError], [except Exception]. *)
Definition handle (x : exn) : step3_result :=
  match x with
  | TimeoutError _ => Stopped TimedOut
  | BaseOnly _ => Escaped x
  | _ => Stopped (ErrorDuringDubbing x)
  end.

Section Resolver.

Variable db : UnicodeDb.
Variable e : env.

(** The body of the [try] after the poll has returned [final]. *)
Definition resolve (final : status_dict) (w : world) : step3_result * world :=
  match status final with
  | Absent => (handle (AttributeError (u "status")), w)
  | Null => (handle (AttributeError (u "upper")), w)
  | Val st =>
      if negb (str_eqb (py_upper db st) (u "COMPLETED"))
      then (Stopped (DidNotComplete st), w)
      else
        match download_details final with
        | Absent => (handle (AttributeError (u "download_details")), w)
        | Null | Val [] => (Stopped NoDownloadDetails, w)
        | Val (first :: _) =>
            match download_url first with
            | Absent => (handle (AttributeError (u "download_url")), w)
            | url =>
                let srt_url := get_or_none (download_srt_url first) in
                match url with
                | Val (c :: rest) =>
                    let (r1, w1) := download_url_bytes e (c :: rest) w in
                    match r1 with
                    | Raises x => (handle x, w1)
                    | Returns dubbed_video_bytes =>
                        match srt_url with
                        | Val (c' :: rest') =>
                            let (r2, w2) :=
                              download_url_bytes e (c' :: rest') w1 in
                            match r2 with
                            | Raises x => (handle x, w2)
                            | Returns srt_bytes =>
                                (Fetched dubbed_video_bytes (Some srt_bytes),
                                 w2)
                            end
                        | _ => (Fetched dubbed_video_bytes None, w1)
                        end
                    end
                | _ => (Stopped NoDubbedMedia, w)
                end
            end
        end
  end.

Definition step3 (fuel : nat) (job_id : str) (w : world)
  : step3_result * world :=
  match poll_job_until_complete db e fuel job_id default_poll_interval
          default_timeout_sec w with
  | (Ok final, w1) => resolve final w1
  | (Raise x, w1) => (handle x, w1)
  | (Diverge, w1) => (StillPolling, w1)
  end.

End Resolver.

(** ** GET /api/dub_status *)

Inductive api_response :=
| StatusOnly (s : str)
| Full (s : str) (dubbed_video_url subtitles_url notes : field str).

Definition empty_result : result_dict :=
  {| dubbed_url := Absent; video_url := Absent; output_url := Absent;
     subtitles_url := Absent; srt_url := Absent; captions_url := Absent |}.

Section Api.

Variable db : UnicodeDb.
Variable e : env.

(** The notes of the reply: [None] without a subtitle URL, else the notes or
    the placeholder of the [except Exception]. *)
Definition notes_for (subtitles : field str) (w : world)
  : res (field str) * world :=
  match subtitles with
  | Val (c :: rest) =>
      let (r, w1) := download_url_bytes e (c :: rest) w in
      match r with
      | Raises x =>
          if is_Exception x
          then (Ok (Val (u "- (Could not generate notes) " ++ exn_msg x)), w1)
          else (Raise x, w1)
      | Returns srt_bytes =>
          let transcript_text := srt_to_plain_text db srt_bytes in
          match generate_notes_from_text db e transcript_text w1 with
          | (Ok notes, w2) => (Ok (Val notes), w2)
          | (Raise x, w2) =>
              if is_Exception x
              then (Ok (Val (u "- (Could not generate notes) " ++ exn_msg x)),
                    w2)
              else (Raise x, w2)
          | (Diverge, w2) => (Diverge, w2)
          end
      end
  | _ => (Ok Null, w)
  end.

Definition api_dub_status (fuel : nat) (job_id : str) (w : world)
  : res api_response * world :=
  match poll_job_until_complete db e fuel job_id default_poll_interval
          default_timeout_sec w with
  | (Raise x, w1) => (Raise x, w1)
  | (Diverge, w1) => (Diverge, w1)
  | (Ok st, w1) =>
      let s := py_upper db (str_of_field (status st)) in
      if negb (str_in s terminal_statuses) then (Ok (StatusOnly s), w1)
      else
        let result :=
          match result st with Val d => d | _ => empty_result end in
        let dubbed_video_url :=
          py_or (py_or (get_or_none (dubbed_url result))
                       (get_or_none (video_url result)))
                (get_or_none (output_url result)) in
        let subtitles_url :=
          py_or (py_or (get_or_none (subtitles_url result))
                       (get_or_none (srt_url result)))
                (get_or_none (captions_url result)) in
        match notes_for subtitles_url w1 with
        | (Ok notes, w2) =>
            (Ok (Full (py_lower db s) dubbed_video_url subtitles_url notes),
             w2)
        | (Raise x, w2) => (Raise x, w2)
        | (Diverge, w2) => (Diverge, w2)
        end
  end.

End Api.

(** ** The rest of [dub.py]: fetching the source video *)

(** [s.split(sep)] for a separator of one character. *)
Fixpoint split_on (sep : N) (s : str) : list str :=
  match s with
  | [] => [[]]
  | c :: s' =>
      if N.eqb c sep then [] :: split_on sep s'
      else
        match split_on sep s' with
        | h :: t => (c :: h) :: t
        | [] => [[c]]
        end
  end.

Definition AMP : N := 38.

Definition clean_youtube_url (url : str) : str :=
  if existsb (N.eqb AMP) url then hd [] (split_on AMP url) else url.

Fixpoint starts_with (p s : str) : bool :=
  match p, s with
  | [], _ => true
  | a :: p', b :: s' => N.eqb a b && starts_with p' s'
  | _ :: _, [] => false
  end.

(** The scan of [s.replace(old, new)] for a non-empty [old]; [skip] counts
    the characters of an occurrence already replaced that are still to be
    passed over. *)
Fixpoint replace_from (old new : str) (skip : nat) (s : str) : str :=
  match s with
  | [] => []
  | c :: s' =>
      match skip with
      | S n => replace_from old new n s'
      | O =>
          if starts_with old s
          then new ++ replace_from old new (List.length old - 1) s'
          else c :: replace_from old new 0 s'
      end
  end.

(** [s.replace(old, new)]; an empty [old] matches between the characters. *)
Definition py_replace (old new s : str) : str :=
  match old with
  | [] => new ++ flat_map (fun c => c :: new) s
  | _ :: _ => replace_from old new 0 s
  end.

(** [os.path.join(a, b)] on POSIX. *)
Definition path_join (a b : str) : str :=
  match b with
  | 47%N :: _ => b
  | _ =>
      match rev a with
      | [] => b
      | 47%N :: _ => a ++ b
      | _ => a ++ 47%N :: b
      end
  end.

(** The collaborators of the download: [os.makedirs(out_dir, exist_ok=True)]
    and the run of yt-dlp on a URL with an output template, which gives what
    [prepare_filename] returns for the video. *)
Record media_env := {
  makedirs : str -> call unit;
  yt_dlp : str -> str -> call str
}.

(** The world with the runs of yt-dlp, latest first. *)
Record site := {
  outside : world;
  yt_runs : list (str * str)       (* URL, output template *)
}.

Definition site0 : site := {| outside := world0; yt_runs := [] |}.

Definition default_out_dir : str := u "downloads".

Definition download_youtube_highest_mp4 (m : media_env) (url out_dir : str)
    (w : site) : res str * site :=
  let failed (x : exn) (w' : site) : res str * site :=
    if is_Exception x
    then (Raise (OtherException
                   (u "Failed to download Youtube video with yt-dlp: "
                    ++ exn_msg x)), w')
    else (Raise x, w') in
  match makedirs m out_dir with
  | Raises x => failed x w
  | Returns _ =>
      let url := clean_youtube_url url in
      let output_template := path_join out_dir (u "%(title)s.%(ext)s") in
      let w1 := {| outside := outside w;
                   yt_runs := (url, output_template) :: yt_runs w |} in
      match yt_dlp m url output_template with
      | Raises x => failed x w1
      | Returns name => (Ok (py_replace (u ".webm") (u ".mp4") name), w1)
      end
  end.

(** POST /api/dub: the reply is the identifier of the job. *)
Definition api_dub_start (m : media_env) (e : env)
    (youtube_url target_locale : str) (w : site) : res (field str) * site :=
  match download_youtube_highest_mp4 m youtube_url default_out_dir w with
  | (Raise x, w1) => (Raise x, w1)
  | (Diverge, w1) => (Diverge, w1)
  | (Ok mp4_path, w1) =>
      match create_dub_job e mp4_path target_locale default_priority
              (outside w1) with
      | (Ok job, w2) =>
          (Ok (job_ident job), {| outside := w2; yt_runs := yt_runs w1 |})
      | (Raise x, w2) => (Raise x, {| outside := w2; yt_runs := yt_runs w1 |})
      | (Diverge, w2) => (Diverge, {| outside := w2; yt_runs := yt_runs w1 |})
      end
  end.

(** ** Transcription of a spoken question, [gemini_asr] of [app.py] *)

(** The characters at which [str.splitlines] cuts. *)
Definition line_boundaries : list N :=
  [10; 13; 11; 12; 28; 29; 30; 133; 8232; 8233]%N.

Definition is_line_boundary (c : N) : bool := existsb (N.eqb c) line_boundaries.

(** [s.splitlines()[0]] for a text that is not empty. *)
Fixpoint first_line (s : str) : str :=
  match s with
  | [] => []
  | c :: s' => if is_line_boundary c then [] else c :: first_line s'
  end.

(** [s.count("\n")] *)
Definition count_newlines (s : str) : nat := count_occ N.eq_dec s NL.

Definition TRANSCRIBE_PROMPT : str :=
  u "TRANSCRIBE VERBATIM." ++ [NL]
  ++ u "Return ONLY the user's spoken words as plain text." ++ [NL]
  ++ u "Do NOT summarize, translate, explain, or add anything." ++ [NL]
  ++ u "No punctuation cleanup beyond what was actually spoken.".

(** The speech model: the construction of the model object, and the [text]
    of the reply to a prompt with the audio. *)
Record gemini := {
  GenerativeModel : str -> call unit;
  generate_content_text : str -> list byte -> call (field str)
}.

Definition transcription_failed (x : exn) : str :=
  u "[Transcription failed: " ++ exn_msg x ++ u "]".

Definition gemini_asr (db : UnicodeDb) (e : env) (g : gemini)
    (audio_path : str) : res str :=
  let failed (x : exn) : res str :=
    if is_Exception x then Ok (transcription_failed x) else Raise x in
  match GenerativeModel g (u "models/gemini-1.5-pro") with
  | Raises x => failed x
  | Returns _ =>
      match open_rb e audio_path with
      | Raises x => failed x
      | Returns audio_bytes =>
          match generate_content_text g TRANSCRIBE_PROMPT audio_bytes with
          | Raises x => failed x
          | Returns Absent => failed (AttributeError (u "text"))
          | Returns t =>
              let text := py_strip db (match t with Val s => s | _ => [] end) in
              if (2 <? count_newlines text) || (500 <? List.length text)
              then
                match text with
                | [] => failed (OtherException (u "list index out of range"))
                | _ :: _ => Ok (py_strip db (first_line text))
                end
              else Ok text
          end
      end
  end.

(** ** Vocabulary of the statements about the poller *)

(** One turn of the loop that neither returns nor raises: one more query, one
    more clock reading, one more sleep. *)
Definition cycle (d : Q) (w : world) : world :=
  {| clock_reads := S (clock_reads w);
     status_queries := S (status_queries w);
     slept := d :: slept w;
     events := events w |}.

(** [n] such turns, starting with the attempt counter at [a]. *)
Fixpoint cycles (I : Q) (n : nat) (a : Z) (w : world) : world :=
  match n with
  | O => w
  | S n' => cycles I n' (a + 1) (cycle (sleep_time I (a + 1)) w)
  end.

(** The sleeps of attempts [a+1 .. a+n], latest first. *)
Fixpoint sleeps (I : Q) (n : nat) (a : Z) : list Q :=
  match n with
  | O => []
  | S n' => sleep_time I (a + Z.of_nat n) :: sleeps I n' a
  end.

(** The provider answers the queries [q, q+1, ..., q+n-1] with statuses that
    are not terminal. *)
Definition pending (db : UnicodeDb) (e : env) (job_id : str) (q n : nat)
  : Prop :=
  forall k, k < n ->
    exists st, get_status e (q + k) job_id = Returns st
               /\ is_terminal db (to_status_dict st) = false.

(** The clock readings [c, c+1, ..., c+n-1] are within the timeout. *)
Definition in_time (e : env) (T start : Q) (c n : nat) : Prop :=
  forall k, k < n -> (time_time e (c + k) - start <= T)%Q.

(** A provider whose job is still running at the first two queries and
    completed from the third on, behind a slow link: every clock reading is
    2000 seconds after the one before. *)
Definition with_status (s : string) : provider_status :=
  HasDunderDict {| status := Val (u s); download_details := Null;
                   result := Absent |}.

Definition quiet_env : env :=
  {| time_time := fun _ => 0%Q;
     get_status := fun _ _ => Returns (with_status "RUNNING");
     open_rb := fun _ => Returns [];
     jobs_create := fun _ _ _ _ => Returns (ReplyDict Absent Absent);
     requests_get := fun _ => Returns [];
     chat_invoke := fun _ => Returns [] |}.

Definition slow_env : env :=
  {| time_time := fun n => inject_Z (2000 * Z.of_nat n);
     get_status := fun n _ =>
       Returns (with_status (if n <? 2 then "RUNNING" else "COMPLETED"));
     open_rb := open_rb quiet_env;
     jobs_create := jobs_create quiet_env;
     requests_get := requests_get quiet_env;
     chat_invoke := chat_invoke quiet_env |}.

(** The same provider with a clock that advances by one second a reading. *)
Definition brisk_env : env :=
  {| time_time := fun n => inject_Z (Z.of_nat n);
     get_status := get_status slow_env;
     open_rb := open_rb quiet_env;
     jobs_create := jobs_create quiet_env;
     requests_get := requests_get quiet_env;
     chat_invoke := chat_invoke quiet_env |}.

(** A provider that never finishes, under the one-second clock. *)
Definition stuck_env : env :=
  {| time_time := fun n => inject_Z (Z.of_nat n);
     get_status := get_status quiet_env;
     open_rb := open_rb quiet_env;
     jobs_create := jobs_create quiet_env;
     requests_get := requests_get quiet_env;
     chat_invoke := chat_invoke quiet_env |}.

(** The message of the ValueError that rejects a locale. *)
Definition invalid_locale (target_locale : str) : exn :=
  ValueError (u "target_locale '" ++ target_locale
                ++ u "' not in supported TARGET_LOCALES.").

(** A language model that is down. *)
Definition mute_env : env :=
  {| time_time := time_time quiet_env;
     get_status := get_status quiet_env;
     open_rb := open_rb quiet_env;
     jobs_create := jobs_create quiet_env;
     requests_get := requests_get quiet_env;
     chat_invoke :=
       fun _ => Raises (OtherException (u "503 Service Unavailable")) |}.

(** A completed job whose only descriptor has a dubbed-media URL and no
    subtitle URL, and a downloader that serves three bytes. *)
Definition media_only : status_dict :=
  {| status := Val (u "COMPLETED");
     download_details :=
       Val [ {| download_url := Val (u "https://cdn.example/dub.mp4");
                download_srt_url := Null |} ];
     result := Absent |}.

Definition serving_env : env :=
  {| time_time := time_time quiet_env;
     get_status := get_status quiet_env;
     open_rb := open_rb quiet_env;
     jobs_create := jobs_create quiet_env;
     requests_get := fun _ => Returns [x00; x01; x02];
     chat_invoke := chat_invoke quiet_env |}.

(** ** Vocabulary of the statements about subtitles *)

Definition nl : string := String "010"%char EmptyString.

(** The subtitle file of the end-to-end scenario. *)
Definition two_cues : list byte :=
  bytes_of ("1" ++ nl ++ "00:00:01,000 --> 00:00:02,000" ++ nl
            ++ "Hello world" ++ nl ++ nl
            ++ "2" ++ nl ++ "00:00:02,500 --> 00:00:03,000" ++ nl
            ++ "Second line" ++ nl)%string.

(** A line that holds a number between two lines of text, and two lines of
    text a blank line apart. *)
Definition numbered_line : list byte := bytes_of ("a" ++ nl ++ "1" ++ nl ++ "b").
Definition blank_between : list byte := bytes_of ("a" ++ nl ++ nl ++ "b").

(** Two lines of text with spaces around them. *)
Definition padded_lines : list byte := bytes_of ("  a" ++ nl ++ "b ").

(** No character that \d matches. *)
Definition digit_free (db : UnicodeDb) (s : str) : Prop :=
  Forall (fun c => py_isdecimal db c = false) s.

(** Two newlines in a row somewhere in the text. *)
Fixpoint has_blank_run (s : str) : bool :=
  match s with
  | a :: (b :: _) as t => (N.eqb a NL && N.eqb b NL) || has_blank_run t
  | _ => false
  end.

(** What [re.sub(r"\n{2,}", "\n", s)] comes to: a newline that another
    newline follows is dropped. *)
Fixpoint squeeze (s : str) : str :=
  match s with
  | [] => []
  | a :: t =>
      match t with
      | b :: _ => if (N.eqb a NL && N.eqb b NL)%bool then squeeze t
                  else a :: squeeze t
      | [] => [a]
      end
  end.

(** A Unicode scalar value: a code point that is not a surrogate. *)
Definition is_scalar (c : N) : bool :=
  ((c <? 55296) || (57344 <=? c) && (c <? 1114112))%N.

(** The number of newlines that the text starts with. *)
Fixpoint newline_run (s : str) : nat :=
  match s with
  | c :: s' => if N.eqb NL c then S (newline_run s') else 0
  | [] => 0
  end.

(** ** Vocabulary of the statements about subtitle files *)

(** A cue of a subtitle file: its number, the two timestamps and the text. *)
Record cue := {
  cue_index : str;
  cue_start : str;
  cue_stop : str;
  cue_text : str
}.

Definition all_digits (s : str) : bool := forallb ascii_isdecimal s.

(** HH:MM:SS,mmm with the digits 0..9. *)
Definition is_stamp (t : str) : bool :=
  match t with
  | [h1; h2; c1; m1; m2; c2; s1; s2; c3; f1; f2; f3] =>
      all_digits [h1; h2; m1; m2; s1; s2; f1; f2; f3]
      && N.eqb c1 58 && N.eqb c2 58 && N.eqb c3 44
  | _ => false
  end.

(** A text that neither starts nor ends with whitespace, and is not empty. *)
Definition trimmed (db : UnicodeDb) (s : str) : Prop :=
  match s with
  | [] => False
  | c :: _ => py_isspace db c = false /\ py_isspace db (last s c) = false
  end.

(** A well-formed cue whose text has no digit and no blank line. *)
Record cue_ok (db : UnicodeDb) (c : cue) : Prop := {
  index_digits : cue_index c <> [] /\ all_digits (cue_index c) = true;
  start_stamp : is_stamp (cue_start c) = true;
  stop_stamp : is_stamp (cue_stop c) = true;
  text_digit_free : digit_free db (cue_text c);
  text_no_blank : has_blank_run (cue_text c) = false;
  text_trimmed : trimmed db (cue_text c)
}.

(** The cue as it stands in the file: number, timestamps, text. *)
Definition cue_header_text (c : cue) : str :=
  cue_index c ++ NL :: cue_start c ++ u " --> " ++ cue_stop c.

Definition render_cue (c : cue) : str :=
  cue_header_text c ++ NL :: cue_text c.

(** A subtitle file: the cues a blank line apart, and after the last one
    [tail], any number of newlines. *)
Fixpoint render_srt (cues : list cue) (tail : str) : str :=
  match cues with
  | [] => tail
  | [c] => render_cue c ++ tail
  | c :: rest => render_cue c ++ [NL; NL] ++ render_srt rest tail
  end.

(** The same file with the cue headers taken out. *)
Fixpoint without_headers (cues : list cue) (tail : str) : str :=
  match cues with
  | [] => tail
  | [c] => NL :: cue_text c ++ tail
  | c :: rest => NL :: cue_text c ++ [NL; NL] ++ without_headers rest tail
  end.

Definition no_bol (r : regex) : bool :=
  forallb (fun a => match a with Bol => false | _ => true end) r.

(** The texts, one under the other. *)
Fixpoint join_lines (texts : list str) : str :=
  match texts with
  | [] => []
  | [t] => t
  | t :: rest => t ++ NL :: join_lines rest
  end.

(** A cue with two lines of text. *)
Definition sample_cue : cue :=
  {| cue_index := u "12";
     cue_start := u "00:01:02,500";
     cue_stop := u "00:01:04,000";
     cue_text := u ("Good morning," ++ nl ++ "class.")%string |}.

Definition second_cue : cue :=
  {| cue_index := u "13";
     cue_start := u "00:01:04,100";
     cue_stop := u "00:01:06,000";
     cue_text := u "Please sit down." |}.

(** The file of the two cues, ended by a single newline. *)
Definition sample_file : list byte :=
  bytes_of ("12" ++ nl ++ "00:01:02,500 --> 00:01:04,000" ++ nl
            ++ "Good morning," ++ nl ++ "class." ++ nl ++ nl
            ++ "13" ++ nl ++ "00:01:04,100 --> 00:01:06,000" ++ nl
            ++ "Please sit down." ++ nl)%string.

(** ** Vocabulary of the statements about the source video *)

(** [p in s] for strings. *)
Fixpoint occurs (p s : str) : bool :=
  starts_with p s
  || match s with
     | [] => false
     | _ :: s' => occurs p s'
     end.

Definition SLASH : N := 47.

(** A downloader whose video comes out as WebM. *)
Definition webm_env : media_env :=
  {| makedirs := fun _ => Returns tt;
     yt_dlp := fun _ _ => Returns (u "downloads/Lecture 1.webm") |}.

(** A downloader that cannot reach the site. *)
Definition offline_env : media_env :=
  {| makedirs := fun _ => Returns tt;
     yt_dlp := fun _ _ => Raises (OtherException (u "HTTP Error 403")) |}.

(** ** Vocabulary of the statements about the results *)

(** A completed job with both URLs, and a downloader that serves the video
    and fails on the subtitles. *)
Definition media_and_subtitles : status_dict :=
  {| status := Val (u "COMPLETED");
     download_details :=
       Val [ {| download_url := Val (u "https://cdn.example/dub.mp4");
                download_srt_url := Val (u "https://cdn.example/dub.srt") |} ];
     result := Absent |}.

Definition no_subtitles_env : env :=
  {| time_time := time_time quiet_env;
     get_status := get_status quiet_env;
     open_rb := open_rb quiet_env;
     jobs_create := jobs_create quiet_env;
     requests_get := fun url =>
       if str_eqb url (u "https://cdn.example/dub.mp4")
       then Returns [x00; x01; x02]
       else Raises (OtherException (u "404 Client Error"));
     chat_invoke := chat_invoke quiet_env |}.

(** A provider whose job has failed. *)
Definition failed_env : env :=
  {| time_time := time_time quiet_env;
     get_status := fun _ _ => Returns (with_status "failed");
     open_rb := open_rb quiet_env;
     jobs_create := jobs_create quiet_env;
     requests_get := requests_get quiet_env;
     chat_invoke := chat_invoke quiet_env |}.

Definition lower_statuses : list str := [u "completed"; u "failed"; u "error"].

(** A completed job with a subtitle URL in its result, behind a downloader
    that is down. *)
Definition completed_with_result : provider_status :=
  HasToDict
    {| status := Val (u "Completed");
       download_details := Null;
       result :=
         Val {| dubbed_url := Null;
                video_url := Val (u "https://cdn.example/v.mp4");
                output_url := Absent;
                subtitles_url := Absent;
                srt_url := Val (u "https://cdn.example/v.srt");
                captions_url := Absent |} |}.

Definition unreachable_env : env :=
  {| time_time := time_time quiet_env;
     get_status := fun _ _ => Returns completed_with_result;
     open_rb := open_rb quiet_env;
     jobs_create := jobs_create quiet_env;
     requests_get := fun _ => Raises (OtherException (u "Connection reset"));
     chat_invoke := chat_invoke quiet_env |}.

(** ** Vocabulary of the statements about transcription *)

(** A speech model that answers with four short lines. *)
Definition chatty : gemini :=
  {| GenerativeModel := fun _ => Returns tt;
     generate_content_text := fun _ _ =>
       Returns (Val (u ("What is a derivative?" ++ nl ++ "Sure!" ++ nl
                        ++ "A derivative is" ++ nl ++ "a rate.")%string)) |}.

(** A speech model whose reply cannot be read. *)
Definition blocked : gemini :=
  {| GenerativeModel := fun _ => Returns tt;
     generate_content_text := fun _ _ =>
       Raises (ValueError (u "response was blocked")) |}.

(** ** Vocabulary of the statements about repeated normalization *)

(** The pattern matches at some position of the text, scanned from the
    current one. *)
Fixpoint finds (db : UnicodeDb) (r : regex) (prev : option N) (s : str)
  : bool :=
  match match_here db r prev s with
  | Some _ => true
  | None =>
      match s with
      | [] => false
      | c :: s' => finds db r (Some c) s'
      end
  end.

(** A text in which nothing is left to normalize but the whitespace at its
    ends: no cue header, no line that holds only a number, no run of two
    newlines. *)
Definition plain (db : UnicodeDb) (t : str) : bool :=
  negb (finds db cue_header None t)
  && negb (finds db number_line None t)
  && negb (has_blank_run t).

(** A number behind a space on the first line. *)
Definition indented_number : list byte := bytes_of (" 1" ++ nl ++ "b").

Definition number_first : list byte := bytes_of ("1" ++ nl ++ "b").

(** A sentence with a number in it. *)
Definition chapter_line : list byte := bytes_of "  Chapter 1 begins ".

(** ** Vocabulary of the statements about replies with missing parts *)

(** A completed job whose payload has no [download_details] attribute, and
    one whose first descriptor has a subtitle URL and no [download_url]
    attribute. *)
Definition no_details_attribute : status_dict :=
  {| status := Val (u "COMPLETED"); download_details := Absent;
     result := Absent |}.

Definition no_url_attribute : status_dict :=
  {| status := Val (u "COMPLETED");
     download_details :=
       Val [ {| download_url := Absent;
                download_srt_url := Val (u "https://cdn.example/dub.srt") |} ];
     result := Absent |}.

(** A completed job with two descriptors. *)
Definition first_of_two : descriptor :=
  {| download_url := Val (u "https://cdn.example/dub.mp4");
     download_srt_url := Null |}.

Definition second_of_two : descriptor :=
  {| download_url := Val (u "https://cdn.example/other.mp4");
     download_srt_url := Val (u "https://cdn.example/other.srt") |}.

Definition two_descriptors : status_dict :=
  {| status := Val (u "COMPLETED");
     download_details := Val [first_of_two; second_of_two];
     result := Absent |}.

(** A provider that spells the status of a failed job its own way, and one
    that refuses the request. *)
Definition spelling_env : env :=
  {| time_time := time_time quiet_env;
     get_status := fun _ _ => Returns (with_status "erRor");
     open_rb := open_rb quiet_env;
     jobs_create := jobs_create quiet_env;
     requests_get := requests_get quiet_env;
     chat_invoke := chat_invoke quiet_env |}.

Definition unauthorized_env : env :=
  {| time_time := time_time quiet_env;
     get_status := fun _ _ => Raises (OtherException (u "401 Unauthorized"));
     open_rb := open_rb quiet_env;
     jobs_create := jobs_create quiet_env;
     requests_get := requests_get quiet_env;
     chat_invoke := chat_invoke quiet_env |}.

(** * Properties *)

(** ** Text *)

Lemma str_eqb_eq (a b : str) : str_eqb a b = true <-> a = b.
Proof.
  unfold str_eqb. destruct (list_eq_dec N.eq_dec a b); split; congruence.
Qed.

Lemma str_eqb_refl (a : str) : str_eqb a a = true.
Proof. now apply str_eqb_eq. Qed.

Lemma str_in_In (x : str) (l : list str) : str_in x l = true <-> In x l.
Proof.
  unfold str_in. rewrite existsb_exists. split.
  - intros [y [Hy E]]. apply str_eqb_eq in E. now subst.
  - intros H. exists x. split; [assumption | apply str_eqb_refl].
Qed.

(** ** The poller *)

Lemma inject_Z_nonneg (z : Z) : (0 <= z)%Z -> (0 <= inject_Z z)%Q.
Proof. intros H. unfold Qle, inject_Z. simpl. lia. Qed.

Lemma attempt_bucket_pos (a : Z) : (0 <= a)%Z -> (1 <= 1 + a / 10)%Z.
Proof. intros H. pose proof (Z.div_pos a 10 H). lia. Qed.

Lemma sleep_time_nonneg (I : Q) (a : Z) :
  (0 <= I)%Q -> (0 <= a)%Z -> (0 <= sleep_time I a)%Q.
Proof.
  intros HI Ha. unfold sleep_time. apply Q.min_glb.
  - apply Qmult_le_0_compat; [assumption |].
    apply inject_Z_nonneg. pose proof (attempt_bucket_pos Ha). lia.
  - discriminate.
Qed.

Lemma sleep_time_le_15 (I : Q) (a : Z) : (sleep_time I a <= 15)%Q.
Proof. unfold sleep_time. apply Q.le_min_r. Qed.

Lemma cycles_clock_reads I n : forall a w,
  clock_reads (cycles I n a w) = clock_reads w + n.
Proof.
  induction n as [| n IH]; intros a w; simpl.
  - lia.
  - rewrite IH. simpl. lia.
Qed.

Lemma cycles_status_queries I n : forall a w,
  status_queries (cycles I n a w) = status_queries w + n.
Proof.
  induction n as [| n IH]; intros a w; simpl.
  - lia.
  - rewrite IH. simpl. lia.
Qed.

Lemma cycles_events I n : forall a w, events (cycles I n a w) = events w.
Proof.
  induction n as [| n IH]; intros a w; simpl; [reflexivity |].
  now rewrite IH.
Qed.

Lemma sleeps_shift I n : forall a,
  sleeps I (S n) a = sleeps I n (a + 1) ++ [sleep_time I (a + 1)].
Proof.
  induction n as [| n IH]; intros a.
  - simpl. reflexivity.
  - change (sleeps I (S (S n)) a)
      with (sleep_time I (a + Z.of_nat (S (S n))) :: sleeps I (S n) a).
    rewrite IH.
    change (sleeps I (S n) (a + 1))
      with (sleep_time I (a + 1 + Z.of_nat (S n)) :: sleeps I n (a + 1)).
    simpl app. f_equal. f_equal. lia.
Qed.

Lemma cycles_slept I n : forall a w,
  slept (cycles I n a w) = sleeps I n a ++ slept w.
Proof.
  induction n as [| n IH]; intros a w.
  - reflexivity.
  - simpl cycles. rewrite IH. rewrite sleeps_shift.
    rewrite <- app_assoc. reflexivity.
Qed.

Section PollerFacts.

Variable db : UnicodeDb.
Variable e : env.
Variables (job_id : str) (I T start : Q).

Local Abbreviation pending := (pending db e job_id).
Local Abbreviation in_time := (in_time e T start).

Lemma poll_loop_cycle fuel a w st :
  get_status e (status_queries w) job_id = Returns st ->
  is_terminal db (to_status_dict st) = false ->
  (time_time e (clock_reads w) - start <= T)%Q ->
  (0 <= I)%Q -> (0 <= a)%Z ->
  poll_loop db e (S fuel) job_id I T start a w
  = poll_loop db e fuel job_id I T start (a + 1)
      (cycle (sleep_time I (a + 1)) w).
Proof.
  intros Hq Hnt Ht HI Ha. simpl. unfold query. rewrite Hq, Hnt.
  unfold read_clock. simpl.
  destruct (Qlt_le_dec T (time_time e (clock_reads w) - start)) as [Hlt | _].
  - exfalso. exact (Qlt_not_le _ _ Hlt Ht).
  - unfold sleep.
    destruct (Qlt_le_dec (sleep_time I (a + 1)) 0) as [Hneg | _].
    + exfalso. apply (Qlt_not_le _ _ Hneg).
      apply sleep_time_nonneg; [assumption | lia].
    + reflexivity.
Qed.

Lemma poll_loop_cycles n : forall fuel a w,
  pending (status_queries w) n -> in_time (clock_reads w) n ->
  (0 <= I)%Q -> (0 <= a)%Z ->
  poll_loop db e (n + fuel) job_id I T start a w
  = poll_loop db e fuel job_id I T start (a + Z.of_nat n) (cycles I n a w).
Proof.
  induction n as [| n IH]; intros fuel a w Hp Ht HI Ha.
  - simpl. now rewrite Z.add_0_r.
  - destruct (Hp 0) as [st [Hq Hnt]]; [lia |].
    rewrite Nat.add_0_r in Hq.
    change (S n + fuel) with (S (n + fuel)).
    rewrite (poll_loop_cycle _ _ Hq Hnt); try assumption.
    + rewrite IH; try assumption; try lia.
      * simpl cycles. f_equal. lia.
      * intros k Hk. simpl. destruct (Hp (S k)) as [st' H']; [lia |].
        exists st'. now rewrite Nat.add_succ_r in H'.
      * intros k Hk. simpl. specialize (Ht (S k)).
        rewrite Nat.add_succ_r in Ht. apply Ht. lia.
    + specialize (Ht 0). rewrite Nat.add_0_r in Ht. apply Ht. lia.
Qed.

Lemma poll_loop_terminal fuel a w st :
  get_status e (status_queries w) job_id = Returns st ->
  is_terminal db (to_status_dict st) = true ->
  poll_loop db e (S fuel) job_id I T start a w
  = (Ok (to_status_dict st), snd (query e job_id w)).
Proof.
  intros Hq Ht. simpl. unfold query. rewrite Hq, Ht. reflexivity.
Qed.

Lemma poll_loop_timeout fuel a w st :
  get_status e (status_queries w) job_id = Returns st ->
  is_terminal db (to_status_dict st) = false ->
  (T < time_time e (clock_reads w) - start)%Q ->
  poll_loop db e (S fuel) job_id I T start a w
  = (Raise (TimeoutError (u "Polling timed out.")),
     snd (read_clock e (snd (query e job_id w)))).
Proof.
  intros Hq Hnt Ht. simpl. unfold query. rewrite Hq, Hnt.
  unfold read_clock. simpl.
  destruct (Qlt_le_dec T (time_time e (clock_reads w) - start)) as [_ | Hle].
  - reflexivity.
  - exfalso. exact (Qlt_not_le _ _ Ht Hle).
Qed.

End PollerFacts.

(** C1, as the code has it.  When the first two statuses queried are not
    terminal and the third is COMPLETED, and moreover the poll interval is
    not negative and the timeout has not elapsed at the two clock readings
    taken after the first and the second query, [poll_job_until_complete]
    returns the third status payload and has issued exactly 3 status queries,
    whatever fuel beyond 3 the loop is given: it queries no more after the
    terminal status. *)
Theorem poll_returns_third_status
    (db : UnicodeDb) (e : env) (job_id : str) (I T : Q) (fuel : nat)
    (st0 st1 st2 : provider_status) :
  get_status e 0 job_id = Returns st0 ->
  is_terminal db (to_status_dict st0) = false ->
  get_status e 1 job_id = Returns st1 ->
  is_terminal db (to_status_dict st1) = false ->
  get_status e 2 job_id = Returns st2 ->
  upper_status db (to_status_dict st2) = u "COMPLETED" ->
  (0 <= I)%Q ->
  (time_time e 1 - time_time e 0 <= T)%Q ->
  (time_time e 2 - time_time e 0 <= T)%Q ->
  3 <= fuel ->
  exists w,
    poll_job_until_complete db e fuel job_id I T world0
    = (Ok (to_status_dict st2), w)
    /\ status_queries w = 3
    /\ slept w = [sleep_time I 2; sleep_time I 1].
Proof.
  intros H0 N0 H1 N1 H2 C2 HI T1 T2 Hfuel.
  destruct fuel as [| [| [| fuel]]]; try lia.
  unfold poll_job_until_complete, read_clock. cbn [clock_reads world0].
  change (S (S (S fuel))) with (2 + S fuel).
  rewrite poll_loop_cycles; try assumption; try lia.
  - rewrite poll_loop_terminal with (st := st2).
    + eexists. split; [reflexivity |]. simpl. split; reflexivity.
    + exact H2.
    + unfold is_terminal. rewrite C2. reflexivity.
  - intros k Hk. simpl.
    destruct k as [| [| k]]; [exists st0 | exists st1 | lia]; now split.
  - intros k Hk. simpl. destruct k as [| [| k]]; [exact T1 | exact T2 | lia].
Qed.

Lemma poll_returns_third_status_witness :
  exists w,
    poll_job_until_complete ascii_only_db brisk_env 7 (u "job-1")
      default_poll_interval default_timeout_sec world0
    = (Ok (to_status_dict (with_status "COMPLETED")), w)
    /\ status_queries w = 3
    /\ slept w = [sleep_time default_poll_interval 2;
                  sleep_time default_poll_interval 1].
Proof.
  apply (@poll_returns_third_status ascii_only_db brisk_env (u "job-1")
           default_poll_interval default_timeout_sec 7
           (with_status "RUNNING") (with_status "RUNNING")
           (with_status "COMPLETED"));
    try reflexivity; try (vm_compute; discriminate); lia.
Defined.

(** C1 as stated fails: the statuses are RUNNING, RUNNING, COMPLETED, yet
    with the default interval and timeout the poll ends in TimeoutError after
    a single query, because the first clock reading after it is already
    2000 seconds past the start. *)
Lemma poll_third_status_not_reached :
  is_terminal ascii_only_db
    (to_status_dict (with_status "RUNNING")) = false
  /\ get_status slow_env 0 (u "job-1") = Returns (with_status "RUNNING")
  /\ get_status slow_env 1 (u "job-1") = Returns (with_status "RUNNING")
  /\ get_status slow_env 2 (u "job-1") = Returns (with_status "COMPLETED")
  /\ forall fuel, 1 <= fuel ->
       fst (poll_job_until_complete ascii_only_db slow_env fuel (u "job-1")
              default_poll_interval default_timeout_sec world0)
       = Raise (TimeoutError (u "Polling timed out."))
       /\ status_queries
            (snd (poll_job_until_complete ascii_only_db slow_env fuel
                    (u "job-1") default_poll_interval default_timeout_sec
                    world0)) = 1.
Proof.
  repeat split; try reflexivity.
  - destruct fuel as [| fuel]; [lia |].
    unfold poll_job_until_complete, read_clock. cbn [clock_reads world0].
    rewrite poll_loop_timeout with (st := with_status "RUNNING");
      reflexivity.
  - destruct fuel as [| fuel]; [lia |].
    unfold poll_job_until_complete, read_clock. cbn [clock_reads world0].
    rewrite poll_loop_timeout with (st := with_status "RUNNING");
      reflexivity.
Qed.

(** C2, as the code has it.  Let the provider never return a terminal
    status and the poll interval be not negative.  If the clock readings taken after
    the queries 1..n are all within [T] of the start and the reading after
    query n+1 exceeds it, then with fuel up to n the loop is still running
    (nothing has been raised while the elapsed time was at or below [T]), and
    with any more fuel the call raises TimeoutError to its caller at that
    reading, having issued n+1 queries and no further one. *)
Theorem poll_times_out
    (db : UnicodeDb) (e : env) (job_id : str) (I T : Q) (n : nat) :
  (forall k, pending db e job_id k 1) ->
  (0 <= I)%Q ->
  (forall k, 1 <= k <= n -> (time_time e k - time_time e 0 <= T)%Q) ->
  (T < time_time e (S n) - time_time e 0)%Q ->
  (forall fuel, fuel <= n ->
     fst (poll_job_until_complete db e fuel job_id I T world0) = Diverge)
  /\ (forall fuel, n < fuel ->
        poll_job_until_complete db e fuel job_id I T world0
        = (Raise (TimeoutError (u "Polling timed out.")),
           {| clock_reads := S (S n);
              status_queries := S n;
              slept := sleeps I n 0;
              events := [] |})).
Proof.
  intros Hp HI Hin Hout.
  assert (Hpend : forall q m, pending db e job_id q m).
  { intros q m k _. destruct (Hp (q + k) 0) as [st H]; [lia |].
    exists st. now rewrite Nat.add_0_r in H. }
  assert (Hbefore : forall m, m <= n ->
            in_time e T (time_time e 0) 1 m).
  { intros m Hm k Hk. apply Hin. lia. }
  split.
  - intros fuel Hfuel.
    unfold poll_job_until_complete, read_clock. cbn [clock_reads world0].
    replace fuel with (fuel + 0) by lia.
    rewrite poll_loop_cycles; try assumption; try lia.
    + reflexivity.
    + apply Hpend.
    + apply Hbefore. assumption.
  - intros fuel Hfuel.
    unfold poll_job_until_complete, read_clock. cbn [clock_reads world0].
    replace fuel with (n + S (fuel - n - 1)) by lia.
    rewrite poll_loop_cycles; try assumption; try lia.
    + destruct (Hp (0 + n) 0) as [st [Hq Hnt]]; [lia |].
      rewrite Nat.add_0_r in Hq.
      rewrite poll_loop_timeout with (st := st).
      * unfold read_clock, query. simpl.
        rewrite cycles_clock_reads, cycles_status_queries, cycles_slept,
          cycles_events. simpl. rewrite app_nil_r.
        reflexivity.
      * rewrite cycles_status_queries. exact Hq.
      * exact Hnt.
      * rewrite cycles_clock_reads. simpl. exact Hout.
    + apply Hpend.
    + apply Hbefore. lia.
Qed.

Lemma poll_times_out_witness :
  (forall fuel, fuel <= 4 ->
     fst (poll_job_until_complete ascii_only_db stuck_env fuel (u "job-1")
            1 4 world0) = Diverge)
  /\ (forall fuel, 4 < fuel ->
        poll_job_until_complete ascii_only_db stuck_env fuel (u "job-1")
          1 4 world0
        = (Raise (TimeoutError (u "Polling timed out.")),
           {| clock_reads := 6;
              status_queries := 5;
              slept := sleeps 1 4 0;
              events := [] |})).
Proof.
  apply (@poll_times_out ascii_only_db stuck_env (u "job-1") 1%Q 4%Q 4).
  - intros k j Hj. exists (with_status "RUNNING"). split; reflexivity.
  - vm_compute. discriminate.
  - intros k Hk.
    destruct k as [| [| [| [| [| k]]]]]; try lia; vm_compute; discriminate.
  - vm_compute. reflexivity.
Defined.

(** C2 as stated fails: the provider never returns a terminal status and
    the clock passes the timeout of 4 at its fifth reading, yet with the poll
    interval -1 the call never raises TimeoutError: whatever the fuel, it
    ends in the ValueError of [time.sleep] after a single query. *)
Lemma poll_negative_interval_never_times_out :
  (forall k, get_status stuck_env k (u "job-1")
             = Returns (with_status "RUNNING"))
  /\ is_terminal ascii_only_db (to_status_dict (with_status "RUNNING"))
     = false
  /\ (4 < time_time stuck_env 5 - time_time stuck_env 0)%Q
  /\ forall fuel, 1 <= fuel ->
       poll_job_until_complete ascii_only_db stuck_env fuel (u "job-1")
         (-1) 4 world0
       = (Raise (ValueError (u "sleep length must be non-negative")),
          {| clock_reads := 2; status_queries := 1; slept := [];
             events := [] |}).
Proof.
  split; [reflexivity |]. split; [reflexivity |].
  split; [vm_compute; reflexivity |].
  intros fuel Hfuel. destruct fuel as [| fuel]; [lia |]. reflexivity.
Qed.

Lemma poll_loop_sleeps (db : UnicodeDb) (e : env) (job_id : str) (I T start : Q)
    (fuel : nat) : forall (m : nat) (w : world),
  slept w = sleeps I m 0 ->
  exists m',
    slept (snd (poll_loop db e fuel job_id I T start (Z.of_nat m) w))
    = sleeps I m' 0.
Proof.
  induction fuel as [| fuel IH]; intros m w Hw.
  - exists m. exact Hw.
  - simpl. unfold query.
    destruct (get_status e (status_queries w) job_id) as [st | x].
    2: { exists m. exact Hw. }
    destruct (is_terminal db (to_status_dict st)).
    { exists m. exact Hw. }
    unfold read_clock. simpl.
    destruct (Qlt_le_dec T (time_time e (clock_reads w) - start)).
    { exists m. exact Hw. }
    unfold sleep.
    destruct (Qlt_le_dec (sleep_time I (Z.of_nat m + 1)) 0).
    { exists m. exact Hw. }
    replace (Z.of_nat m + 1)%Z with (Z.of_nat (S m)) by lia.
    apply IH. simpl slept. rewrite Hw.
    change (sleeps I (S m) 0)
      with (sleep_time I (0 + Z.of_nat (S m)) :: sleeps I m 0).
    reflexivity.
Qed.

Lemma sleeps_length (I : Q) (n : nat) (a : Z) : List.length (sleeps I n a) = n.
Proof. induction n as [| n IH]; simpl; [reflexivity | now rewrite IH]. Qed.

(** C3, as the code has it.  For every base interval [I] and attempt count
    [a >= 0] the sleep is [min(I * (1 + a // 10), 15)]: it is [min(I, 15)]
    for attempt counts 0..9 (so [I] itself only when [I <= 15]), [min(2I, 15)]
    for 10..19, and never above 15.  The attempt count goes up by one in every
    cycle, before the sleep is computed: in any run of the poller the sleeps
    issued are, from the latest back to the first, those of the attempt counts
    m, m-1, ..., 1. *)
Theorem sleep_backoff (I : Q) (a : Z) :
  (0 <= a)%Z ->
  (sleep_time I a == Qmin (I * inject_Z (1 + a / 10)) 15)%Q
  /\ ((a <= 9)%Z -> (sleep_time I a == Qmin I 15)%Q)
  /\ ((a <= 9)%Z -> (I <= 15)%Q -> (sleep_time I a == I)%Q)
  /\ ((10 <= a <= 19)%Z -> (sleep_time I a == Qmin (2 * I) 15)%Q)
  /\ (sleep_time I a <= 15)%Q
  /\ (forall db e fuel job_id T,
        let w := snd (poll_job_until_complete db e fuel job_id I T world0) in
        slept w = sleeps I (List.length (slept w)) 0).
Proof.
  intros Ha.
  split; [| split; [| split; [| split; [| split]]]].
  - reflexivity.
  - intros H9. unfold sleep_time.
    replace (a / 10)%Z with 0%Z by (symmetry; apply Z.div_small; lia).
    apply Q.min_compat; [| reflexivity]. simpl. ring.
  - intros H9 H15. unfold sleep_time.
    replace (a / 10)%Z with 0%Z by (symmetry; apply Z.div_small; lia).
    rewrite Q.min_l.
    + simpl. ring.
    + simpl. setoid_replace (I * 1)%Q with I by ring. exact H15.
  - intros [H10 H19]. unfold sleep_time.
    replace (a / 10)%Z with 1%Z.
    + apply Q.min_compat; [| reflexivity]. simpl. ring.
    + apply Z.div_unique with (r := (a - 10)%Z); lia.
  - apply sleep_time_le_15.
  - intros db e fuel job_id T w. subst w.
    unfold poll_job_until_complete, read_clock.
    destruct (@poll_loop_sleeps db e job_id I T
                (time_time e (clock_reads world0)) fuel 0
                {| clock_reads := S (clock_reads world0);
                   status_queries := status_queries world0;
                   slept := slept world0;
                   events := events world0 |} eq_refl) as [m Hm].
    simpl Z.of_nat in Hm. rewrite Hm. now rewrite sleeps_length.
Qed.

Lemma sleep_backoff_witness :
  (sleep_time 3 12 == Qmin (3 * inject_Z (1 + 12 / 10)) 15)%Q
  /\ ((12 <= 9)%Z -> (sleep_time 3 12 == Qmin 3 15)%Q)
  /\ ((12 <= 9)%Z -> (3 <= 15)%Q -> (sleep_time 3 12 == 3)%Q)
  /\ ((10 <= 12 <= 19)%Z -> (sleep_time 3 12 == Qmin (2 * 3) 15)%Q)
  /\ (sleep_time 3 12 <= 15)%Q
  /\ (forall db e fuel job_id T,
        let w := snd (poll_job_until_complete db e fuel job_id 3 T world0) in
        slept w = sleeps 3 (List.length (slept w)) 0).
Proof. apply (@sleep_backoff 3%Q 12%Z). lia. Defined.

(** C3 as stated fails: with a base interval of 20 the sleep of attempt
    count 0 is 15, not the base interval. *)
Lemma sleep_not_base_interval :
  ~ (sleep_time 20 0 == 20)%Q /\ (sleep_time 20 0 == 15)%Q.
Proof. split; vm_compute; [intros H; discriminate H | reflexivity]. Qed.

Lemma poll_loop_ok_terminal (db : UnicodeDb) (e : env) (job_id : str)
    (I T start : Q) (fuel : nat) : forall a w d w',
  poll_loop db e fuel job_id I T start a w = (Ok d, w') ->
  is_terminal db d = true.
Proof.
  induction fuel as [| fuel IH]; intros a w d w' H.
  - discriminate H.
  - simpl in H. unfold query in H.
    destruct (get_status e (status_queries w) job_id) as [st | x];
      [| discriminate H].
    destruct (is_terminal db (to_status_dict st)) eqn:Ht.
    + injection H as Hd _. now subst d.
    + unfold read_clock in H. simpl in H.
      destruct (Qlt_le_dec T (time_time e (clock_reads w) - start));
        [discriminate H |].
      unfold sleep in H.
      destruct (Qlt_le_dec (sleep_time I (a + 1)) 0); [discriminate H |].
      exact (IH _ _ _ _ H).
Qed.

Lemma poll_loop_raise_cause (db : UnicodeDb) (e : env) (job_id : str)
    (I T start : Q) (fuel : nat) : forall a w x w',
  (0 <= a)%Z ->
  poll_loop db e fuel job_id I T start a w = (Raise x, w') ->
  x = TimeoutError (u "Polling timed out.")
  \/ (exists k, get_status e k job_id = Raises x)
  \/ (x = ValueError (u "sleep length must be non-negative") /\ (I < 0)%Q).
Proof.
  induction fuel as [| fuel IH]; intros a w x w' Ha H.
  - discriminate H.
  - simpl in H. unfold query in H.
    destruct (get_status e (status_queries w) job_id) as [st | x0] eqn:Hq.
    2: { injection H as <- _. right. left. now exists (status_queries w). }
    destruct (is_terminal db (to_status_dict st)); [discriminate H |].
    unfold read_clock in H. simpl in H.
    destruct (Qlt_le_dec T (time_time e (clock_reads w) - start)).
    { injection H as <- _. now left. }
    unfold sleep in H.
    destruct (Qlt_le_dec (sleep_time I (a + 1)) 0) as [Hneg | _].
    + injection H as <- _. right. right. split; [reflexivity |].
      destruct (Qlt_le_dec I 0) as [HI | HI]; [exact HI |].
      exfalso. apply (Qlt_not_le _ _ Hneg).
      apply sleep_time_nonneg; [exact HI | lia].
    + eapply IH; [| exact H]. lia.
Qed.

(** C10, as the code has it.  A status payload that [poll_job_until_complete]
    returns has a status whose upper-cased form is COMPLETED, FAILED or ERROR
    (the payload keeps the spelling of the provider); the call leaves
    otherwise by an exception, which is the TimeoutError, an exception of the
    status endpoint, or the ValueError of [time.sleep] under a negative
    interval; and [api_dub_status] never answers with the reply that carries
    the status alone, the one of its branch for a status that is not
    terminal. *)
Theorem poll_result_is_terminal
    (db : UnicodeDb) (e : env) (fuel : nat) (job_id : str) (w : world) :
  (forall I T d w',
     poll_job_until_complete db e fuel job_id I T w = (Ok d, w') ->
     In (upper_status db d) terminal_statuses)
  /\ (forall s w',
        api_dub_status db e fuel job_id w <> (Ok (StatusOnly s), w'))
  /\ (forall I T x w',
        poll_job_until_complete db e fuel job_id I T w = (Raise x, w') ->
        x = TimeoutError (u "Polling timed out.")
        \/ (exists k, get_status e k job_id = Raises x)
        \/ (x = ValueError (u "sleep length must be non-negative")
            /\ (I < 0)%Q)).
Proof.
  split; [| split].
  - intros I T d w' H. unfold poll_job_until_complete in H.
    destruct (read_clock e w) as [start w0].
    apply str_in_In. exact (poll_loop_ok_terminal _ _ _ _ _ _ _ _ _ H).
  - intros s w' H. unfold api_dub_status in H.
    destruct (poll_job_until_complete db e fuel job_id default_poll_interval
                default_timeout_sec w) as [[d | x |] w1] eqn:Hp;
      try discriminate H.
    unfold poll_job_until_complete in Hp.
    destruct (read_clock e w) as [start w0].
    apply poll_loop_ok_terminal in Hp. unfold is_terminal, upper_status in Hp.
    rewrite Hp in H. simpl in H.
    destruct (notes_for db e _ w1) as [[notes | x |] w2]; discriminate H.
  - intros I T x w' H. unfold poll_job_until_complete in H.
    destruct (read_clock e w) as [start w0].
    eapply poll_loop_raise_cause; [| exact H]. lia.
Qed.

Lemma poll_result_is_terminal_witness :
  In (upper_status ascii_only_db
        (to_status_dict (with_status "COMPLETED"))) terminal_statuses.
Proof.
  eapply (proj1 (@poll_result_is_terminal ascii_only_db brisk_env 7
                   (u "job-1") world0)
            default_poll_interval default_timeout_sec).
  vm_compute. reflexivity.
Defined.

(** C10 as stated fails twice.  The payload returned keeps the status as
    the provider spelled it, "erRor", which is not one of the three
    upper-case words; and a call can leave by an exception that is not the
    timeout, here the one raised by the status endpoint. *)
Lemma poll_returns_other_spelling_and_exits :
  (exists d w',
     poll_job_until_complete ascii_only_db spelling_env 3 (u "job-1")
       default_poll_interval default_timeout_sec world0 = (Ok d, w')
     /\ status d = Val (u "erRor")
     /\ ~ In (str_of_field (status d)) terminal_statuses)
  /\ (exists x w',
        poll_job_until_complete ascii_only_db unauthorized_env 3 (u "job-1")
          default_poll_interval default_timeout_sec world0 = (Raise x, w')
        /\ x = OtherException (u "401 Unauthorized")
        /\ forall msg, x <> TimeoutError msg).
Proof.
  split.
  - eexists. eexists. split; [vm_compute; reflexivity |].
    split; [reflexivity |].
    intros H. apply str_in_In in H. vm_compute in H. discriminate H.
  - eexists. eexists. split; [vm_compute; reflexivity |].
    split; [reflexivity | discriminate].
Qed.

(** ** Job submission *)

Lemma TARGET_LOCALES_count :
  List.length TARGET_LOCALES = 27 /\ NoDup TARGET_LOCALES.
Proof.
  split; [reflexivity |].
  unfold TARGET_LOCALES.
  repeat (constructor;
          [intros H; apply str_in_In in H; vm_compute in H; discriminate H |]).
  constructor.
Qed.

(** C4.  For a locale that is not one of the 27 values of TARGET_LOCALES,
    [create_dub_job] raises the ValueError of the locale check and leaves
    the world as it was: no file opened, no call to the provider.  For a
    locale of the list the check passes: the file is opened, and an
    exception that leaves the call is the one that opening the file raised,
    the one that the provider raised, or comes from reading the attributes
    of the reply; so the rejection of the locale is not raised, unless a
    collaborator raises that very exception itself. *)
Theorem create_checks_locale_first
    (e : env) (file_path target_locale priority : str) (w : world) :
  (~ In target_locale TARGET_LOCALES ->
   create_dub_job e file_path target_locale priority w
   = (Raise (invalid_locale target_locale), w))
  /\ (In target_locale TARGET_LOCALES ->
      (exists later,
         events (snd (create_dub_job e file_path target_locale priority w))
         = later ++ EvOpen file_path :: events w)
      /\ (forall x,
            fst (create_dub_job e file_path target_locale priority w)
            = Raise x ->
            open_rb e file_path = Raises x
            \/ exists f,
                 open_rb e file_path = Returns f
                 /\ (jobs_create e [target_locale] (basename file_path) f
                       priority = Raises x
                     \/ exists i j y,
                          jobs_create e [target_locale] (basename file_path)
                            f priority
                          = Returns (ReplyObject i j (Some y))
                          /\ (is_Exception y = false /\ x = y
                              \/ is_Exception y = true
                                 /\ x = ValueError
                                          (u "Unexpected response format: "
                                           ++ exn_msg y))))
      /\ (open_rb e file_path <> Raises (invalid_locale target_locale) ->
          (forall f,
             jobs_create e [target_locale] (basename file_path) f priority
             <> Raises (invalid_locale target_locale)) ->
          fst (create_dub_job e file_path target_locale priority w)
          <> Raise (invalid_locale target_locale))).
Proof.
  split; intros H.
  - unfold create_dub_job.
    destruct (str_in target_locale TARGET_LOCALES) eqn:E.
    + apply str_in_In in E. contradiction.
    + reflexivity.
  - apply str_in_In in H.
    assert (Hcause :
      forall x,
        fst (create_dub_job e file_path target_locale priority w) = Raise x ->
        open_rb e file_path = Raises x
        \/ exists f,
             open_rb e file_path = Returns f
             /\ (jobs_create e [target_locale] (basename file_path) f
                   priority = Raises x
                 \/ exists i j y,
                      jobs_create e [target_locale] (basename file_path)
                        f priority
                      = Returns (ReplyObject i j (Some y))
                      /\ (is_Exception y = false /\ x = y
                          \/ is_Exception y = true
                             /\ x = ValueError
                                      (u "Unexpected response format: "
                                       ++ exn_msg y)))).
    { intros x. unfold create_dub_job. rewrite H. cbn [negb].
      destruct (open_rb e file_path) as [f | x0].
      - destruct (jobs_create e [target_locale] (basename file_path) f
                    priority) as [[i j | i j [y |]] | x1] eqn:Hj;
          cbn [fst]; intros Hx; try discriminate Hx.
        + right. exists f. split; [reflexivity |]. right. exists i, j, y.
          split; [exact Hj |].
          destruct (is_Exception y); cbn [fst] in Hx; injection Hx as <-;
            [right | left]; now split.
        + injection Hx as <-. right. exists f. split; [reflexivity |].
          left. exact Hj.
      - cbn [fst]. intros Hx. injection Hx as <-. now left. }
    split; [| split; [exact Hcause |]].
    + unfold create_dub_job. rewrite H. simpl.
      destruct (open_rb e file_path) as [f | x].
      * exists [EvCreate [target_locale] (basename file_path) f priority].
        destruct (jobs_create e [target_locale] (basename file_path) f
                    priority) as [[i j | i j [x |]] | x]; try reflexivity.
        destruct (is_Exception x); reflexivity.
      * exists []. reflexivity.
    + intros Hopen Hcreate Hraise.
      destruct (Hcause _ Hraise) as [Ho | [f [_ [Hc | [i [j [y [_ Hy]]]]]]]].
      * contradiction.
      * exact (Hcreate f Hc).
      * destruct Hy as [[Hy <-] | [_ Hy]].
        -- discriminate Hy.
        -- unfold invalid_locale in Hy. injection Hy as Hy.
           cbn in Hy. discriminate Hy.
Qed.

Lemma create_checks_locale_first_witness :
  create_dub_job quiet_env (u "downloads/talk.mp4") (u "en_GB") (u "LOW")
    world0
  = (Raise (invalid_locale (u "en_GB")), world0)
  /\ fst (create_dub_job quiet_env (u "downloads/talk.mp4") (u "en_UK")
            (u "LOW") world0)
     <> Raise (invalid_locale (u "en_UK")).
Proof.
  split.
  - apply (proj1 (@create_checks_locale_first quiet_env
                    (u "downloads/talk.mp4") (u "en_GB") (u "LOW") world0)).
    intros H. apply str_in_In in H. vm_compute in H. discriminate H.
  - apply (proj2 (@create_checks_locale_first quiet_env
                    (u "downloads/talk.mp4") (u "en_UK") (u "LOW") world0)).
    + apply str_in_In. vm_compute. reflexivity.
    + discriminate.
    + intros f. discriminate.
Defined.

(** C5, as the code has it.  When the locale is accepted, the file opens and
    the provider's reply has neither an [id] nor a [job_id] entry, a reply
    that is a dict, or an object whose [__dict__] can be read, makes
    [create_dub_job] return normally, with [None] as the identifier and the
    reply as [raw].  ValueError "Unexpected response format" is raised only
    for a reply that is not a dict and whose [__dict__] cannot be read. *)
Theorem create_defaults_missing_id
    (e : env) (file_path target_locale priority : str) (w : world)
    (f : list byte) (r : create_reply) :
  In target_locale TARGET_LOCALES ->
  open_rb e file_path = Returns f ->
  jobs_create e [target_locale] (basename file_path) f priority = Returns r ->
  (r = ReplyDict Absent Absent \/ r = ReplyObject Absent Absent None ->
   fst (create_dub_job e file_path target_locale priority w)
   = Ok {| job_ident := Null; raw := r |})
  /\ (forall x, r = ReplyObject Absent Absent (Some x) ->
      is_Exception x = true ->
      fst (create_dub_job e file_path target_locale priority w)
      = Raise (ValueError (u "Unexpected response format: " ++ exn_msg x))).
Proof.
  intros Hin Hopen Hcreate. apply str_in_In in Hin.
  unfold create_dub_job. rewrite Hin, Hopen, Hcreate. simpl. split.
  - intros [-> | ->]; reflexivity.
  - intros x -> Hx. rewrite Hx. reflexivity.
Qed.

Lemma create_defaults_missing_id_witness :
  fst (create_dub_job quiet_env (u "downloads/talk.mp4") (u "hi_IN")
         default_priority world0)
  = Ok {| job_ident := Null; raw := ReplyDict Absent Absent |}.
Proof.
  apply (proj1 (@create_defaults_missing_id quiet_env
                  (u "downloads/talk.mp4") (u "hi_IN") default_priority
                  world0 [] (ReplyDict Absent Absent)
                  ltac:(apply str_in_In; vm_compute; reflexivity)
                  eq_refl eq_refl)).
  left. reflexivity.
Defined.

(** C5 as stated fails: the provider answers the creation with an empty
    dict, and [create_dub_job] returns a job whose identifier is [None]
    instead of raising. *)
Lemma create_returns_job_without_id :
  jobs_create quiet_env [u "hi_IN"] (u "talk.mp4") [] default_priority
  = Returns (ReplyDict Absent Absent)
  /\ create_dub_job quiet_env (u "downloads/talk.mp4") (u "hi_IN")
       default_priority world0
     = (Ok {| job_ident := Null; raw := ReplyDict Absent Absent |},
        {| clock_reads := 0; status_queries := 0; slept := [];
           events := [EvCreate [u "hi_IN"] (u "talk.mp4") [] (u "LOW");
                      EvOpen (u "downloads/talk.mp4")] |}).
Proof. split; vm_compute; reflexivity. Qed.

(** ** Notes *)

(** C8.  When the call to the language model raises an error, whatever it
    is, [generate_notes_from_text] raises nothing and returns the string
    "- (Error generating notes) " followed by the text of the error; when the
    call succeeds it returns the content of the reply, stripped. *)
Theorem notes_placeholder_on_error
    (db : UnicodeDb) (e : env) (text : str) (w : world) :
  (forall x, chat_invoke e (NOTES_PROMPT text) = Raises x ->
     is_Exception x = true ->
     fst (generate_notes_from_text db e text w)
     = Ok (u "- (Error generating notes) " ++ exn_msg x))
  /\ (forall content, chat_invoke e (NOTES_PROMPT text) = Returns content ->
        fst (generate_notes_from_text db e text w)
        = Ok (py_strip db content)).
Proof.
  unfold generate_notes_from_text. split.
  - intros x Hx Hexc. rewrite Hx, Hexc. reflexivity.
  - intros content Hc. rewrite Hc. reflexivity.
Qed.

Lemma notes_placeholder_on_error_witness :
  fst (generate_notes_from_text ascii_only_db mute_env (u "Hello world")
         world0)
  = Ok (u "- (Error generating notes) 503 Service Unavailable").
Proof.
  apply (proj1 (@notes_placeholder_on_error ascii_only_db mute_env
                  (u "Hello world") world0)
           (OtherException (u "503 Service Unavailable")));
    reflexivity.
Defined.

(** ** Result resolution *)

(** A payload without the attribute [download_details], or a descriptor
    without the attribute [download_url], ends in the general message of the
    [except Exception] handler. *)
Lemma resolve_missing_attribute
    (db : UnicodeDb) (e : env) (final : status_dict) (w : world) (st : str) :
  status final = Val st ->
  py_upper db st = u "COMPLETED" ->
  (download_details final = Absent ->
   resolve db e final w
   = (Stopped (ErrorDuringDubbing (AttributeError (u "download_details"))),
      w))
  /\ (forall first others,
        download_details final = Val (first :: others) ->
        download_url first = Absent ->
        resolve db e final w
        = (Stopped (ErrorDuringDubbing (AttributeError (u "download_url"))),
           w)).
Proof.
  intros Hst Hup. unfold resolve. rewrite Hst, Hup. simpl. split.
  - intros ->. reflexivity.
  - intros first others -> ->. reflexivity.
Qed.

(** For a final status that is COMPLETED: when the list of download
    descriptors is absent ([None]) or empty, step 3 stops with "No download
    details returned." and fetches nothing; when the first descriptor has no
    dubbed-media URL ([None] or empty), it stops with "No dubbed video
    found." and fetches nothing, whatever the subtitle URL is; when the
    dubbed-media URL is there and the subtitle URL is not (attribute missing,
    [None] or empty), only the dubbed media is fetched and the step ends
    with its bytes and no subtitles. *)
Theorem resolve_completed
    (db : UnicodeDb) (e : env) (final : status_dict) (w : world) (st : str) :
  status final = Val st ->
  py_upper db st = u "COMPLETED" ->
  (download_details final = Null \/ download_details final = Val [] ->
   resolve db e final w = (Stopped NoDownloadDetails, w))
  /\ (forall first others,
        download_details final = Val (first :: others) ->
        download_url first = Null \/ download_url first = Val [] ->
        resolve db e final w = (Stopped NoDubbedMedia, w))
  /\ (forall first others url dubbed_video_bytes,
        download_details final = Val (first :: others) ->
        download_url first = Val url -> url <> [] ->
        truthy (get_or_none (download_srt_url first)) = false ->
        requests_get e url = Returns dubbed_video_bytes ->
        resolve db e final w
        = (Fetched dubbed_video_bytes None, log (EvDownload url) w)).
Proof.
  intros Hst Hup. unfold resolve. rewrite Hst, Hup. simpl.
  split; [| split].
  - intros [-> | ->]; reflexivity.
  - intros first others -> [-> | ->]; reflexivity.
  - intros first others url video -> -> Hurl Hsrt Hget.
    destruct url as [| c url]; [contradiction |].
    unfold download_url_bytes. rewrite Hget.
    destruct (download_srt_url first) as [| | [| c' srt]];
      try reflexivity; discriminate Hsrt.
Qed.

Lemma resolve_completed_witness :
  resolve ascii_only_db serving_env media_only world0
  = (Fetched [x00; x01; x02] None,
     log (EvDownload (u "https://cdn.example/dub.mp4")) world0).
Proof.
  apply (proj2 (proj2 (@resolve_completed ascii_only_db serving_env
                         media_only world0 (u "COMPLETED")
                         eq_refl eq_refl))
           {| download_url := Val (u "https://cdn.example/dub.mp4");
              download_srt_url := Null |}
           [] (u "https://cdn.example/dub.mp4") [x00; x01; x02]);
    try reflexivity.
  discriminate.
Defined.

(** C9.  The resolution at the replies that lack an attribute.  A completed
    job whose payload has no [download_details] attribute does not stop with
    "No download details returned.", and one whose first descriptor has no
    [download_url] attribute (and has a subtitle URL) does not stop with "No
    dubbed video found.": reading the attribute fails and both end in the
    general "Error during dubbing" of the last handler.  The subtitle URL,
    read with [getattr] and a default, may be missing without harm. *)
Theorem resolve_without_attribute :
  resolve ascii_only_db serving_env no_details_attribute world0
  = (Stopped (ErrorDuringDubbing (AttributeError (u "download_details"))),
     world0)
  /\ resolve ascii_only_db serving_env no_url_attribute world0
     = (Stopped (ErrorDuringDubbing (AttributeError (u "download_url"))),
        world0)
  /\ resolve ascii_only_db serving_env
       {| status := Val (u "COMPLETED");
          download_details :=
            Val [ {| download_url := Val (u "https://cdn.example/dub.mp4");
                     download_srt_url := Absent |} ];
          result := Absent |} world0
     = (Fetched [x00; x01; x02] None,
        log (EvDownload (u "https://cdn.example/dub.mp4")) world0).
Proof. repeat split. Qed.

(** ** Subtitles to plain text *)

(** C7.  The subtitle bytes of the end-to-end scenario normalize to
    "Hello world", a newline, "Second line". *)
Theorem two_cues_plain_text (db : UnicodeDb) :
  srt_to_plain_text db two_cues
  = u ("Hello world" ++ nl ++ "Second line")%string.
Proof. vm_compute. reflexivity. Qed.

(** C6 as stated fails.  A line holding only a number is replaced by an
    empty line after the blank runs have been collapsed, so the output of
    the first pass has a blank run that the second pass collapses; a number
    behind a space on the first line stands at the start of a line only
    after the first pass has stripped the text, so the second pass removes
    it; and a text without any cue markup but with a blank line is not
    returned unchanged. *)
Lemma normalize_twice_differs :
  srt_to_plain_text ascii_only_db numbered_line
  = u ("a" ++ nl ++ nl ++ "b")%string
  /\ utf8_encode (srt_to_plain_text ascii_only_db numbered_line)
     = Some blank_between
  /\ srt_to_plain_text ascii_only_db blank_between = u ("a" ++ nl ++ "b")%string
  /\ srt_to_plain_text ascii_only_db blank_between
     <> srt_to_plain_text ascii_only_db numbered_line
  /\ srt_to_plain_text ascii_only_db blank_between
     <> py_strip ascii_only_db (utf8_decode_ignore blank_between)
  /\ srt_to_plain_text ascii_only_db indented_number
     = u ("1" ++ nl ++ "b")%string
  /\ utf8_encode (srt_to_plain_text ascii_only_db indented_number)
     = Some number_first
  /\ srt_to_plain_text ascii_only_db number_first = u "b".
Proof.
  repeat split; try (vm_compute; reflexivity);
    vm_compute; intros H; discriminate H.
Qed.

Section StripFacts.

Variable db : UnicodeDb.

Lemma lstrip_suffix (s : str) : exists l, s = l ++ lstrip db s.
Proof.
  induction s as [| c s [l IH]].
  - exists []. reflexivity.
  - simpl. destruct (py_isspace db c).
    + exists (c :: l). simpl. now rewrite <- IH.
    + exists []. reflexivity.
Qed.

Lemma lstrip_head (s : str) :
  match lstrip db s with
  | c :: _ => py_isspace db c = false
  | [] => True
  end.
Proof.
  induction s as [| c s IH]; simpl; [exact I |].
  destruct (py_isspace db c) eqn:E; [exact IH | exact E].
Qed.

Lemma lstrip_fixed (s : str) :
  match s with c :: _ => py_isspace db c = false | [] => True end ->
  lstrip db s = s.
Proof. destruct s as [| c s]; simpl; [reflexivity | now intros ->]. Qed.

Lemma lstrip_idem (s : str) : lstrip db (lstrip db s) = lstrip db s.
Proof. apply lstrip_fixed, lstrip_head. Qed.

Lemma rstrip_prefix (s : str) : exists r, s = rstrip db s ++ r.
Proof.
  unfold rstrip. destruct (lstrip_suffix (rev s)) as [l H].
  exists (rev l). rewrite <- rev_app_distr, <- H. now rewrite rev_involutive.
Qed.

Lemma rstrip_idem (s : str) : rstrip db (rstrip db s) = rstrip db s.
Proof. unfold rstrip. now rewrite rev_involutive, lstrip_idem. Qed.

Lemma py_strip_infix (s : str) : exists l r, s = l ++ py_strip db s ++ r.
Proof.
  unfold py_strip. destruct (lstrip_suffix s) as [l Hl].
  destruct (rstrip_prefix (lstrip db s)) as [r Hr].
  exists l, r. now rewrite <- Hr.
Qed.

Lemma py_strip_idem (s : str) : py_strip db (py_strip db s) = py_strip db s.
Proof.
  unfold py_strip at 1.
  assert (H : lstrip db (py_strip db s) = py_strip db s).
  { apply lstrip_fixed. unfold py_strip.
    destruct (rstrip_prefix (lstrip db s)) as [r Hr].
    pose proof (lstrip_head s) as Hh. rewrite Hr in Hh.
    destruct (rstrip db (lstrip db s)); [exact I | exact Hh]. }
  rewrite H. unfold py_strip. apply rstrip_idem.
Qed.

End StripFacts.

Lemma has_blank_run_app_r (l m : str) :
  has_blank_run (l ++ m) = false -> has_blank_run m = false.
Proof.
  induction l as [| a l IH]; [trivial |].
  intros H. apply IH. simpl in H.
  destruct (l ++ m); [reflexivity |].
  apply orb_false_iff in H. apply H.
Qed.

Lemma has_blank_run_app_l (m r : str) :
  has_blank_run (m ++ r) = false -> has_blank_run m = false.
Proof.
  induction m as [| a m IH]; [trivial |].
  intros H. simpl in H. destruct m as [| b m]; [reflexivity |].
  simpl in H. apply orb_false_iff in H. destruct H as [H1 H2].
  change (has_blank_run (a :: b :: m))
    with ((N.eqb a NL && N.eqb b NL) || has_blank_run (b :: m)).
  rewrite H1. simpl orb. apply IH. exact H2.
Qed.

Lemma squeeze_head (a : N) (t : str) :
  N.eqb a NL = false -> squeeze (a :: t) = a :: squeeze t.
Proof. intros H. simpl. rewrite H. destruct t; reflexivity. Qed.

Lemma squeeze_Forall (P : N -> Prop) (s : str) :
  Forall P s -> Forall P (squeeze s).
Proof.
  induction s as [| a t IH]; intros H; [constructor |].
  inversion H as [| ? ? Ha Ht]; subst. specialize (IH Ht).
  simpl. destruct t as [| b t']; [now constructor |].
  destruct (N.eqb a NL && N.eqb b NL); [exact IH | now constructor].
Qed.

Lemma squeeze_id (s : str) : has_blank_run s = false -> squeeze s = s.
Proof.
  induction s as [| a t IH]; intros H; [reflexivity |].
  simpl in *. destruct t as [| b t']; [reflexivity |].
  apply orb_false_iff in H. destruct H as [H1 H2].
  rewrite H1. f_equal. apply IH. exact H2.
Qed.

Lemma squeeze_no_blank_run (s : str) : has_blank_run (squeeze s) = false.
Proof.
  induction s as [| a t IH]; [reflexivity |].
  destruct t as [| b t']; [reflexivity |].
  change (squeeze (a :: b :: t'))
    with (if (N.eqb a NL && N.eqb b NL)%bool then squeeze (b :: t')
          else a :: squeeze (b :: t')).
  destruct (N.eqb a NL && N.eqb b NL)%bool eqn:E; [exact IH |].
  remember (squeeze (b :: t')) as q eqn:Hq.
  destruct q as [| c q']; [reflexivity |].
  change (has_blank_run (a :: c :: q'))
    with ((N.eqb a NL && N.eqb c NL) || has_blank_run (c :: q')).
  rewrite IH, orb_false_r.
  (* the head of [squeeze (b :: t')] is [b], or a newline when [b] is one *)
  assert (Hc : N.eqb b NL = false -> c = b).
  { intros Hb. rewrite (@squeeze_head b t' Hb) in Hq. now injection Hq. }
  destruct (N.eqb a NL) eqn:Ea; [| reflexivity].
  simpl in E. rewrite (Hc E). rewrite E. reflexivity.
Qed.

Section RegexFacts.

Variable db : UnicodeDb.

Local Arguments N.eqb : simpl never.
Local Arguments Nat.leb : simpl nomatch.

(** A pattern that starts with [\d+] matches nowhere but at a digit. *)
Lemma digit_first_no_match (r : regex) (n : nat) (prev : option N) (s : str) :
  match s with c :: _ => py_isdecimal db c = false | [] => True end ->
  match_here db (Rep Digit (S n) :: r) prev s = None.
Proof.
  intros H. destruct s as [| c s']; simpl; [reflexivity |].
  now rewrite H.
Qed.

Lemma cue_header_no_match (prev : option N) (s : str) :
  match s with c :: _ => py_isdecimal db c = false | [] => True end ->
  match_here db cue_header prev s = None.
Proof. apply digit_first_no_match. Qed.

Lemma number_line_no_match (prev : option N) (s : str) :
  match s with c :: _ => py_isdecimal db c = false | [] => True end ->
  match_here db number_line prev s = None.
Proof.
  intros H. unfold number_line.
  change (match_here db (Bol :: Rep Digit 1 :: [Rep Space 0; Eol]) prev s)
    with (if at_bol prev
          then match_here db (Rep Digit 1 :: [Rep Space 0; Eol]) prev s
          else None).
  rewrite digit_first_no_match by exact H. now destruct (at_bol prev).
Qed.

(** Where the pattern matches at no character of the text, [re.sub] returns
    the text. *)
Lemma sub_from_no_match (r : regex) (repl : str) (P : N -> Prop) :
  (forall prev s,
     match s with c :: _ => P c | [] => True end ->
     match_here db r prev s = None) ->
  forall s prev, Forall P s -> sub_from db r repl 0 prev s = s.
Proof.
  intros Hno. induction s as [| c s IH]; intros prev Hs.
  - simpl. now rewrite Hno.
  - inversion Hs as [| ? ? Hc Hs']; subst.
    simpl. rewrite Hno by exact Hc. f_equal. now apply IH.
Qed.

Lemma newline_run_le (s : str) : newline_run s <= List.length s.
Proof.
  induction s as [| c s IH]; simpl; [lia |].
  destruct (N.eqb NL c); simpl; lia.
Qed.

(** [\n{n,}] anchored at a position takes all the newlines there, if there
    are [n] at least. *)
Lemma rep_newlines (s : str) : forall n prev,
  rep_greedy db (Lit NL) (match_here db []) n prev s
  = if n <=? newline_run s then Some (skipn (newline_run s) s) else None.
Proof.
  induction s as [| c s IH]; intros n prev.
  - destruct n; reflexivity.
  - simpl. destruct (N.eqb NL c) eqn:E.
    + rewrite IH. destruct n as [| n]; simpl.
      * reflexivity.
      * destruct (n <=? newline_run s); reflexivity.
    + destruct n; reflexivity.
Qed.

Lemma blank_run_match (prev : option N) (s : str) :
  match_here db blank_run prev s
  = if 2 <=? newline_run s then Some (skipn (newline_run s) s) else None.
Proof. apply rep_newlines. Qed.

Lemma squeeze_newline (s : str) :
  squeeze (NL :: s)
  = match newline_run s with O => NL :: squeeze s | S _ => squeeze s end.
Proof.
  destruct s as [| b t]; [reflexivity |].
  change (squeeze (NL :: b :: t))
    with (if (N.eqb NL NL && N.eqb b NL)%bool then squeeze (b :: t)
          else NL :: squeeze (b :: t)).
  simpl newline_run. rewrite (N.eqb_sym NL b).
  destruct (N.eqb b NL); reflexivity.
Qed.

(** [re.sub(r"\n{2,}", "\n", s)] drops every newline that another follows;
    with [n > 0] newlines of a replaced run still to pass over, the newline
    that replaced the run stands for them. *)
Lemma sub_blank_run_squeeze (s : str) :
  (forall prev, sub_from db blank_run [NL] 0 prev s = squeeze s)
  /\ (forall prev n, newline_run s = S n ->
        NL :: sub_from db blank_run [NL] (S n) prev s = squeeze s).
Proof.
  induction s as [| c s [IHF IHH]]; split.
  - intros prev. reflexivity.
  - intros prev n H. discriminate H.
  - intros prev.
    change (sub_from db blank_run [NL] 0 prev (c :: s))
      with (match match_here db blank_run prev (c :: s) with
            | Some rest =>
                match List.length (c :: s) - List.length rest with
                | O => [NL] ++ c :: sub_from db blank_run [NL] 0 (Some c) s
                | S n => [NL] ++ sub_from db blank_run [NL] n (Some c) s
                end
            | None => c :: sub_from db blank_run [NL] 0 (Some c) s
            end).
    rewrite blank_run_match. simpl newline_run.
    destruct (N.eqb NL c) eqn:E.
    + apply N.eqb_eq in E. subst c. rewrite squeeze_newline.
      destruct (newline_run s) as [| m] eqn:Hrun.
      * simpl. now rewrite IHF.
      * replace (2 <=? S (S m)) with true by reflexivity.
        rewrite length_skipn.
        pose proof (newline_run_le s) as Hle. rewrite Hrun in Hle.
        replace (List.length (NL :: s) - (List.length (NL :: s) - S (S m)))
          with (S (S m)) by (cbn [List.length]; lia).
        exact (IHH (Some NL) m eq_refl).
    + replace (2 <=? 0) with false by reflexivity.
      rewrite IHF. rewrite N.eqb_sym in E.
      now rewrite (@squeeze_head c s E).
  - intros prev n H. simpl in H.
    destruct (N.eqb NL c) eqn:E; [| discriminate H].
    apply N.eqb_eq in E. subst c. injection H as H.
    rewrite squeeze_newline. simpl sub_from.
    destruct n as [| n].
    + rewrite H. now rewrite IHF.
    + rewrite H. exact (IHH (Some NL) n H).
Qed.

Lemma re_sub_blank_run (s : str) : re_sub db blank_run [NL] s = squeeze s.
Proof. apply sub_blank_run_squeeze. Qed.

(** On a text without digits the three substitutions come to collapsing
    the blank runs. *)
Lemma normalize_text_digit_free (text : str) :
  digit_free db text ->
  normalize_text db text = py_strip db (squeeze text).
Proof.
  intros H. unfold normalize_text, re_sub.
  rewrite (@sub_from_no_match cue_header []
             (fun c => py_isdecimal db c = false))
    by (try assumption; intros; now apply cue_header_no_match).
  fold (re_sub db blank_run [NL] text). rewrite re_sub_blank_run.
  rewrite (@sub_from_no_match number_line []
             (fun c => py_isdecimal db c = false)).
  - reflexivity.
  - intros. now apply number_line_no_match.
  - now apply squeeze_Forall.
Qed.

End RegexFacts.

(** ** UTF-8 round trip *)

Ltac to_arith :=
  repeat match goal with
  | H : _ && _ = true |- _ => apply andb_true_iff in H; destruct H
  | H : _ || _ = true |- _ => apply orb_true_iff in H
  | H : (_ <=? _)%N = true |- _ => apply N.leb_le in H
  | H : (_ <=? _)%N = false |- _ => apply N.leb_gt in H
  | H : (_ <? _)%N = true |- _ => apply N.ltb_lt in H
  | H : (_ <? _)%N = false |- _ => apply N.ltb_ge in H
  | H : (_ =? _)%N = true |- _ => apply N.eqb_eq in H
  | H : (_ =? _)%N = false |- _ => apply N.eqb_neq in H
  | H : context [if ?b then _ else _] |- _ => destruct b eqn:?
  end.

Ltac arith := zify; Z.to_euclidean_division_equations; lia.

Lemma is_seq2_scalar (b1 b2 : N) :
  is_seq2 b1 b2 = true -> (128 <= cp2 b1 b2 < 2048)%N.
Proof. unfold is_seq2, is_cont, cp2. intros H. to_arith. lia. Qed.

Lemma is_seq3_scalar (b1 b2 b3 : N) :
  is_seq3 b1 b2 b3 = true ->
  (2048 <= cp3 b1 b2 b3 < 65536)%N
  /\ ~ (55296 <= cp3 b1 b2 b3 <= 57343)%N.
Proof. unfold is_seq3, is_cont, cp3. intros H. to_arith; lia. Qed.

Lemma is_seq4_scalar (b1 b2 b3 b4 : N) :
  is_seq4 b1 b2 b3 b4 = true -> (65536 <= cp4 b1 b2 b3 b4 < 1114112)%N.
Proof. unfold is_seq4, is_cont, cp4. intros H. to_arith; lia. Qed.

Lemma is_scalar_spec (c : N) :
  is_scalar c = true
  <-> (c < 55296 \/ 57344 <= c < 1114112)%N.
Proof.
  unfold is_scalar. rewrite orb_true_iff, andb_true_iff, N.ltb_lt, N.leb_le,
    N.ltb_lt. tauto.
Qed.

(** The decoder only produces scalar values. *)
Lemma decode_values_scalar (n : nat) : forall bs,
  List.length bs <= n -> Forall (fun c => is_scalar c = true) (decode_values bs).
Proof.
  induction n as [| n IH]; intros bs Hlen.
  - destruct bs; [constructor | simpl in Hlen; lia].
  - destruct bs as [| b1 t1]; [constructor |].
    simpl in Hlen.
    assert (Hskip : Forall (fun c => is_scalar c = true) (decode_values t1))
      by (apply IH; lia).
    cbn [decode_values].
    destruct (b1 <? 128)%N eqn:E1.
    { constructor; [| exact Hskip]. apply is_scalar_spec. to_arith. lia. }
    destruct t1 as [| b2 t2]; [exact Hskip |].
    destruct (is_seq2 b1 b2) eqn:E2.
    { constructor; [| apply IH; simpl in Hlen; lia].
      apply is_scalar_spec. apply is_seq2_scalar in E2. lia. }
    destruct t2 as [| b3 t3]; [exact Hskip |].
    destruct (is_seq3 b1 b2 b3) eqn:E3.
    { constructor; [| apply IH; simpl in Hlen; lia].
      apply is_scalar_spec. apply is_seq3_scalar in E3. lia. }
    destruct t3 as [| b4 t4]; [exact Hskip |].
    destruct (is_seq4 b1 b2 b3 b4) eqn:E4; [| exact Hskip].
    constructor; [| apply IH; simpl in Hlen; lia].
    apply is_scalar_spec. apply is_seq4_scalar in E4. lia.
Qed.

Lemma utf8_decode_ignore_scalar (b : list byte) :
  Forall (fun c => is_scalar c = true) (utf8_decode_ignore b).
Proof.
  unfold utf8_decode_ignore.
  now apply decode_values_scalar
    with (n := List.length (List.map Byte.to_N b)).
Qed.

(** A scalar value has an encoding, made of byte values, that the decoder
    reads back whatever follows. *)
Lemma encode_point_decode (c : N) :
  is_scalar c = true ->
  exists bs,
    encode_point c = Some bs
    /\ Forall (fun b => (b < 256)%N) bs
    /\ forall rest, decode_values (bs ++ rest) = c :: decode_values rest.
Proof.
  intros Hc. apply is_scalar_spec in Hc. unfold encode_point.
  destruct (c <? 128)%N eqn:E1.
  { eexists. split; [reflexivity |]. to_arith. split.
    - repeat constructor. lia.
    - intros rest. cbn [app decode_values]. apply N.ltb_lt in E1.
      now rewrite E1. }
  destruct (c <? 2048)%N eqn:E2.
  { eexists. split; [reflexivity |]. to_arith. split.
    - repeat constructor; arith.
    - intros rest. cbn [app decode_values].
      replace (192 + c / 64 <? 128)%N with false
        by (symmetry; apply N.ltb_ge; arith).
      replace (is_seq2 (192 + c / 64) (128 + c mod 64)) with true.
      + f_equal. unfold cp2. arith.
      + symmetry. unfold is_seq2, is_cont.
        rewrite !andb_true_iff, !N.leb_le. arith. }
  destruct (c <? 65536)%N eqn:E3.
  { destruct ((55296 <=? c) && (c <=? 57343))%N eqn:Es.
    { to_arith. lia. }
    eexists. split; [reflexivity |].
    assert (Hns : ~ (55296 <= c <= 57343)%N) by lia.
    clear Es. to_arith. split.
    - repeat constructor; arith.
    - intros rest. cbn [app decode_values].
      replace (224 + c / 4096 <? 128)%N with false
        by (symmetry; apply N.ltb_ge; arith).
      replace (is_seq2 (224 + c / 4096) (128 + (c / 64) mod 64)) with false.
      2: { symmetry. unfold is_seq2.
           replace (224 + c / 4096 <=? 223)%N with false
             by (symmetry; apply N.leb_gt; arith).
           now rewrite andb_false_r. }
      replace (is_seq3 (224 + c / 4096) (128 + (c / 64) mod 64)
                 (128 + c mod 64)) with true.
      + f_equal. unfold cp3. arith.
      + symmetry. unfold is_seq3, is_cont.
        destruct (224 + c / 4096 =? 224)%N eqn:Ea;
          destruct (224 + c / 4096 =? 237)%N eqn:Eb;
          to_arith;
          rewrite !andb_true_iff, !N.leb_le; repeat split; arith. }
  eexists. split.
  { replace (c <? 1114112)%N with true by (symmetry; apply N.ltb_lt; lia).
    reflexivity. }
  to_arith. split.
  - repeat constructor; arith.
  - intros rest. cbn [app decode_values].
    replace (240 + c / 262144 <? 128)%N with false
      by (symmetry; apply N.ltb_ge; arith).
    replace (is_seq2 (240 + c / 262144) (128 + (c / 4096) mod 64))
      with false.
    2: { symmetry. unfold is_seq2.
         replace (240 + c / 262144 <=? 223)%N with false
           by (symmetry; apply N.leb_gt; arith).
         now rewrite andb_false_r. }
    replace (is_seq3 (240 + c / 262144) (128 + (c / 4096) mod 64)
               (128 + (c / 64) mod 64)) with false.
    2: { symmetry. unfold is_seq3.
         replace (240 + c / 262144 <=? 239)%N with false
           by (symmetry; apply N.leb_gt; arith).
         now rewrite andb_false_r. }
    replace (is_seq4 (240 + c / 262144) (128 + (c / 4096) mod 64)
               (128 + (c / 64) mod 64) (128 + c mod 64)) with true.
    + f_equal. unfold cp4. arith.
    + symmetry. unfold is_seq4, is_cont.
      destruct (240 + c / 262144 =? 240)%N eqn:Ea;
        destruct (240 + c / 262144 =? 244)%N eqn:Eb;
        to_arith;
        rewrite !andb_true_iff, !N.leb_le; repeat split; arith.
Qed.

Lemma encode_values_decode (s : str) :
  Forall (fun c => is_scalar c = true) s ->
  exists vs,
    encode_values s = Some vs
    /\ Forall (fun b => (b < 256)%N) vs
    /\ decode_values vs = s.
Proof.
  induction s as [| c s IH]; intros H.
  - exists []. repeat split. constructor.
  - inversion H as [| ? ? Hc Hs]; subst.
    destruct (IH Hs) as [vs [Hvs [Hb Hd]]].
    destruct (encode_point_decode c Hc) as [bs [Hbs [Hbb Hdec]]].
    exists (bs ++ vs). simpl. rewrite Hbs, Hvs. split; [reflexivity |].
    split.
    + apply Forall_app. now split.
    + rewrite Hdec. now rewrite Hd.
Qed.

Lemma to_N_byte_of_value (n : N) :
  (n < 256)%N -> Byte.to_N (byte_of_value n) = n.
Proof.
  intros H. unfold byte_of_value.
  destruct (Byte.of_N n) as [b |] eqn:E.
  - now apply Byte.to_of_N.
  - apply Byte.of_N_None_iff in E. lia.
Qed.

Lemma to_N_byte_of_values (vs : list N) :
  Forall (fun b => (b < 256)%N) vs ->
  List.map Byte.to_N (List.map byte_of_value vs) = vs.
Proof.
  induction 1 as [| v vs Hv _ IH]; simpl; [reflexivity |].
  now rewrite to_N_byte_of_value, IH.
Qed.

(** Text made of scalar values encodes, and decodes back to itself. *)
Lemma utf8_round_trip (s : str) :
  Forall (fun c => is_scalar c = true) s ->
  exists b, utf8_encode s = Some b /\ utf8_decode_ignore b = s.
Proof.
  intros H. destruct (encode_values_decode H) as [vs [Hvs [Hb Hd]]].
  exists (List.map byte_of_value vs). unfold utf8_encode, utf8_decode_ignore.
  rewrite Hvs. split; [reflexivity |].
  now rewrite to_N_byte_of_values.
Qed.

Lemma Forall_infix {A} (P : A -> Prop) (l m r : list A) :
  Forall P (l ++ m ++ r) -> Forall P m.
Proof.
  intros H. apply Forall_app in H. destruct H as [_ H].
  apply Forall_app in H. apply H.
Qed.

(** On every byte input whose decoded text has no decimal digit, subtitle
    normalization is idempotent: its output has a
    UTF-8 encoding, and the transform applied to that encoding gives the same
    output.  Applied to a text with no decimal digit and no two newlines in a
    row, it returns the text stripped of leading and trailing whitespace and
    otherwise unchanged. *)
Lemma normalize_idempotent_without_digits
    (db : UnicodeDb) (x : list byte) :
  digit_free db (utf8_decode_ignore x) ->
  (exists y,
     utf8_encode (srt_to_plain_text db x) = Some y
     /\ srt_to_plain_text db y = srt_to_plain_text db x)
  /\ (has_blank_run (utf8_decode_ignore x) = false ->
      srt_to_plain_text db x = py_strip db (utf8_decode_ignore x)).
Proof.
  intros Hd. unfold srt_to_plain_text.
  set (text := utf8_decode_ignore x) in *.
  rewrite (normalize_text_digit_free Hd).
  set (out := py_strip db (squeeze text)).
  destruct (py_strip_infix db (squeeze text)) as [l [r Hlr]].
  fold out in Hlr.
  assert (Hscalar : Forall (fun c => is_scalar c = true) out).
  { apply (@Forall_infix _ _ l out r). rewrite <- Hlr.
    apply squeeze_Forall. apply utf8_decode_ignore_scalar. }
  assert (Hdigits : digit_free db out).
  { apply (@Forall_infix _ _ l out r). rewrite <- Hlr.
    now apply squeeze_Forall. }
  assert (Hruns : has_blank_run out = false).
  { apply has_blank_run_app_l with (r := r).
    apply has_blank_run_app_r with (l := l).
    rewrite <- Hlr. apply squeeze_no_blank_run. }
  split.
  - destruct (utf8_round_trip Hscalar) as [y [Hy Hback]].
    exists y. split; [exact Hy |].
    rewrite Hback. rewrite (normalize_text_digit_free Hdigits).
    rewrite (squeeze_id _ Hruns). unfold out. apply py_strip_idem.
  - intros Hnone. unfold out. now rewrite (squeeze_id _ Hnone).
Qed.

Section PlainFacts.

Variable db : UnicodeDb.

(** A pattern that matches nowhere leaves the text as it is. *)
Lemma finds_none_sub (r : regex) (repl : str) : forall s p,
  finds db r p s = false -> sub_from db r repl 0 p s = s.
Proof.
  induction s as [| c s IH]; intros p H; cbn [finds] in H;
    destruct (match_here db r p _) eqn:E; try discriminate H.
  - cbn [sub_from]. now rewrite E.
  - cbn [sub_from]. rewrite E. f_equal. now apply IH.
Qed.

Lemma normalize_text_plain (t : str) :
  plain db t = true -> normalize_text db t = py_strip db t.
Proof.
  unfold plain. intros H.
  apply andb_true_iff in H. destruct H as [H H3].
  apply andb_true_iff in H. destruct H as [H1 H2].
  apply negb_true_iff in H1, H2, H3.
  unfold normalize_text, re_sub.
  rewrite (finds_none_sub _ _ _ _ H1).
  fold (re_sub db blank_run [NL] t). rewrite re_sub_blank_run.
  rewrite (squeeze_id _ H3).
  now rewrite (finds_none_sub _ _ _ _ H2).
Qed.

(** What a match leaves is never longer than the text, and shorter when a
    repetition had to take a character. *)
Lemma rep_greedy_length (k : char_class)
    (cont : option N -> str -> option str) :
  (forall p s rest, cont p s = Some rest ->
     List.length rest <= List.length s) ->
  forall s least p rest,
    rep_greedy db k cont least p s = Some rest ->
    List.length rest <= List.length s
    /\ (least <> 0 -> List.length rest < List.length s).
Proof.
  intros Hcont. induction s as [| c s IH]; intros least p rest H.
  - simpl in H. destruct least; [| discriminate H].
    apply Hcont in H. split; [exact H | contradiction].
  - cbn [rep_greedy] in H.
    assert (Hstop :
      match least with O => cont p (c :: s) | S _ => None end = Some rest ->
      List.length rest <= List.length (c :: s)
      /\ (least <> 0 -> List.length rest < List.length (c :: s))).
    { destruct least; [| discriminate].
      intros Hs. apply Hcont in Hs. split; [exact Hs | contradiction]. }
    destruct (in_class db k c); [| now apply Hstop].
    destruct (rep_greedy db k cont (pred least) (Some c) s) as [r |] eqn:E;
      [| now apply Hstop].
    injection H as <-. apply IH in E. simpl. split; intros; lia.
Qed.

Lemma match_here_length (r : regex) : forall p s rest,
  match_here db r p s = Some rest -> List.length rest <= List.length s.
Proof.
  induction r as [| a r IH]; intros p s rest H.
  - injection H as <-. lia.
  - destruct a as [k | k least | |]; cbn [match_here] in H.
    + destruct s as [| c s]; [discriminate H |].
      destruct (in_class db k c); [| discriminate H].
      apply IH in H. simpl. lia.
    + apply (@rep_greedy_length k (match_here db r) IH) in H. apply H.
    + destruct (at_bol p); [now apply IH in H | discriminate H].
    + destruct (at_eol s); [now apply IH in H | discriminate H].
Qed.

Lemma cue_header_consumes (p : option N) (s rest : str) :
  match_here db cue_header p s = Some rest ->
  List.length rest < List.length s.
Proof.
  intros H.
  change (match_here db cue_header p s)
    with (rep_greedy db Digit
            (match_here db (List.tl cue_header)) 1 p s) in H.
  apply (@rep_greedy_length Digit _ (match_here_length _)) in H.
  apply H. discriminate.
Qed.

Lemma number_line_consumes (p : option N) (s rest : str) :
  match_here db number_line p s = Some rest ->
  List.length rest < List.length s.
Proof.
  intros H. unfold number_line in H. cbn [match_here] in H.
  destruct (at_bol p); [| discriminate H].
  apply (@rep_greedy_length Digit _
           (match_here_length [Rep Space 0; Eol])) in H.
  apply H. discriminate.
Qed.

(** Removing the matches never makes the text longer, and makes it shorter
    when there is one. *)
Lemma sub_from_length_le (r : regex) : forall s n p,
  List.length (sub_from db r [] n p s) <= List.length s.
Proof.
  induction s as [| c s IH]; intros n p.
  - simpl. destruct n; [destruct (match_here db r p []) |]; simpl; lia.
  - cbn [sub_from]. destruct n as [| n].
    + destruct (match_here db r p (c :: s)) as [rest |].
      * destruct (List.length (c :: s) - List.length rest) as [| m];
          cbn [app];
          [specialize (IH 0 (Some c)) | specialize (IH m (Some c))];
          simpl; lia.
      * simpl. specialize (IH 0 (Some c)). lia.
    + specialize (IH n (Some c)). simpl. lia.
Qed.

Lemma sub_from_length_lt (r : regex) :
  (forall p s rest, match_here db r p s = Some rest ->
     List.length rest < List.length s) ->
  forall s p, finds db r p s = true ->
    List.length (sub_from db r [] 0 p s) < List.length s.
Proof.
  intros Hr. induction s as [| c s IH]; intros p H; cbn [finds] in H.
  - destruct (match_here db r p []) eqn:E; [| discriminate H].
    apply Hr in E. simpl in E. lia.
  - cbn [sub_from].
    destruct (match_here db r p (c :: s)) as [rest |] eqn:E.
    + pose proof (Hr _ _ _ E) as Hlt.
      destruct (List.length (c :: s) - List.length rest) as [| n] eqn:En;
        [lia |].
      cbn [app]. pose proof (sub_from_length_le r s n (Some c)). simpl. lia.
    + apply IH in H. simpl. lia.
Qed.

Lemma squeeze_length_le (s : str) : List.length (squeeze s) <= List.length s.
Proof.
  induction s as [| a t IH]; [simpl; lia |].
  destruct t as [| b t']; [simpl; lia |].
  change (squeeze (a :: b :: t'))
    with (if (N.eqb a NL && N.eqb b NL)%bool then squeeze (b :: t')
          else a :: squeeze (b :: t')).
  destruct (N.eqb a NL && N.eqb b NL)%bool; simpl in *; lia.
Qed.

Lemma squeeze_length_lt (s : str) :
  has_blank_run s = true -> List.length (squeeze s) < List.length s.
Proof.
  induction s as [| a t IH]; [discriminate |].
  destruct t as [| b t']; [discriminate |].
  change (squeeze (a :: b :: t'))
    with (if (N.eqb a NL && N.eqb b NL)%bool then squeeze (b :: t')
          else a :: squeeze (b :: t')).
  change (has_blank_run (a :: b :: t'))
    with ((N.eqb a NL && N.eqb b NL) || has_blank_run (b :: t')).
  pose proof (squeeze_length_le (b :: t')) as Hle.
  destruct (N.eqb a NL && N.eqb b NL)%bool; intros H.
  - simpl in *. lia.
  - cbn [orb] in H. apply IH in H. simpl in *. lia.
Qed.

Lemma py_strip_length_le (s : str) :
  List.length (py_strip db s) <= List.length s.
Proof.
  destruct (py_strip_infix db s) as [l [r H]].
  rewrite H at 2. rewrite !length_app. lia.
Qed.

(** A text with something left to normalize comes out shorter. *)
Lemma normalize_text_shorter (t : str) :
  plain db t = false ->
  List.length (normalize_text db t) < List.length t.
Proof.
  intros H. unfold normalize_text, re_sub.
  fold (re_sub db blank_run [NL] (sub_from db cue_header [] 0 None t)).
  rewrite re_sub_blank_run.
  eapply Nat.le_lt_trans; [apply py_strip_length_le |].
  unfold plain in H.
  destruct (finds db cue_header None t) eqn:F1.
  - eapply Nat.le_lt_trans; [apply sub_from_length_le |].
    eapply Nat.le_lt_trans; [apply squeeze_length_le |].
    apply sub_from_length_lt; [apply cue_header_consumes | exact F1].
  - rewrite (finds_none_sub cue_header [] t None F1).
    destruct (has_blank_run t) eqn:F3.
    + eapply Nat.le_lt_trans; [apply sub_from_length_le |].
      now apply squeeze_length_lt.
    + rewrite (squeeze_id t F3).
      destruct (finds db number_line None t) eqn:F2; [| discriminate H].
      apply sub_from_length_lt; [apply number_line_consumes | exact F2].
Qed.

Lemma sub_from_Forall (P : N -> Prop) (r : regex) (repl : str) :
  Forall P repl ->
  forall s n p, Forall P s -> Forall P (sub_from db r repl n p s).
Proof.
  intros Hrepl. induction s as [| c s IH]; intros n p Hs.
  - simpl. destruct n; [destruct (match_here db r p []) |];
      try constructor; assumption.
  - inversion Hs as [| ? ? Hc Hs']; subst. cbn [sub_from].
    destruct n as [| n]; [| now apply IH].
    destruct (match_here db r p (c :: s)) as [rest |].
    + destruct (List.length (c :: s) - List.length rest);
        apply Forall_app; split; try assumption.
      * constructor; [exact Hc | now apply IH].
      * now apply IH.
    + constructor; [exact Hc | now apply IH].
Qed.

Lemma normalize_text_Forall (P : N -> Prop) (t : str) :
  P NL -> Forall P t -> Forall P (normalize_text db t).
Proof.
  intros Hnl Ht. unfold normalize_text, re_sub.
  match goal with
  | |- Forall P (py_strip db ?t3) =>
      destruct (py_strip_infix db t3) as [l [r Hlr]];
        apply (@Forall_infix _ P l (py_strip db t3) r); rewrite <- Hlr
  end.
  apply sub_from_Forall; [constructor |].
  apply sub_from_Forall; [constructor; [exact Hnl | constructor] |].
  apply sub_from_Forall; [constructor | exact Ht].
Qed.

End PlainFacts.

(** C6, as the code has it.  Call a text plain when it has no cue header, no
    line that holds only a number and no run of two newlines.  For every byte
    input the output of subtitle normalization has a UTF-8 encoding, and the
    transform applied to that encoding yields the same output exactly when
    the output is plain; otherwise it yields a shorter text.  Applied to a
    plain text, the transform returns the text stripped of leading and
    trailing whitespace and otherwise unchanged. *)
Theorem normalize_idempotent_iff_plain (db : UnicodeDb) (x : list byte) :
  (exists y,
     utf8_encode (srt_to_plain_text db x) = Some y
     /\ (srt_to_plain_text db y = srt_to_plain_text db x
         <-> plain db (srt_to_plain_text db x) = true)
     /\ (plain db (srt_to_plain_text db x) = false ->
         List.length (srt_to_plain_text db y)
         < List.length (srt_to_plain_text db x)))
  /\ (plain db (utf8_decode_ignore x) = true ->
      srt_to_plain_text db x = py_strip db (utf8_decode_ignore x)).
Proof.
  split.
  - set (out := srt_to_plain_text db x).
    assert (Hscalar : Forall (fun c => is_scalar c = true) out).
    { unfold out, srt_to_plain_text. apply normalize_text_Forall.
      - reflexivity.
      - apply utf8_decode_ignore_scalar. }
    assert (Hstripped : py_strip db out = out).
    { unfold out, srt_to_plain_text, normalize_text. apply py_strip_idem. }
    destruct (utf8_round_trip Hscalar) as [y [Hy Hback]].
    exists y. split; [exact Hy |].
    assert (Hsecond : srt_to_plain_text db y = normalize_text db out)
      by (unfold srt_to_plain_text at 1; now rewrite Hback).
    rewrite Hsecond. split; [split |].
    + intros Heq. destruct (plain db out) eqn:Hp; [reflexivity |].
      pose proof (normalize_text_shorter db out Hp) as Hlt.
      rewrite Heq in Hlt. lia.
    + intros Hp. rewrite (normalize_text_plain db out Hp). exact Hstripped.
    + apply normalize_text_shorter.
  - intros Hp. unfold srt_to_plain_text. now apply normalize_text_plain.
Qed.

Lemma normalize_idempotent_iff_plain_witness :
  (exists y,
     utf8_encode (srt_to_plain_text ascii_only_db two_cues) = Some y
     /\ srt_to_plain_text ascii_only_db y
        = srt_to_plain_text ascii_only_db two_cues)
  /\ srt_to_plain_text ascii_only_db chapter_line
     = py_strip ascii_only_db (utf8_decode_ignore chapter_line).
Proof.
  destruct (@normalize_idempotent_iff_plain ascii_only_db two_cues)
    as [[y [Hy [Hiff _]]] _].
  destruct (@normalize_idempotent_iff_plain ascii_only_db chapter_line)
    as [_ Hstrip].
  split.
  - exists y. split; [exact Hy |]. apply Hiff. vm_compute. reflexivity.
  - apply Hstrip. vm_compute. reflexivity.
Defined.

(** * More of the code *)

(** ** The poller *)

(** X1.  When the statuses of the first [n] queries are not terminal, the
    clock readings after them are within the timeout and the interval is not
    negative, a terminal status at query [n+1] is returned at once: [n+1]
    queries, [n] sleeps, and the clock is not read again, so the payload is
    returned even when the timeout has elapsed in the meantime. *)
Theorem poll_returns_first_terminal
    (db : UnicodeDb) (e : env) (job_id : str) (I T : Q) (n fuel : nat)
    (st : provider_status) :
  pending db e job_id 0 n ->
  in_time e T (time_time e 0) 1 n ->
  (0 <= I)%Q ->
  get_status e n job_id = Returns st ->
  is_terminal db (to_status_dict st) = true ->
  n < fuel ->
  poll_job_until_complete db e fuel job_id I T world0
  = (Ok (to_status_dict st),
     {| clock_reads := S n; status_queries := S n;
        slept := sleeps I n 0; events := [] |}).
Proof.
  intros Hp Ht HI Hq Hterm Hfuel.
  unfold poll_job_until_complete, read_clock. cbn [clock_reads world0].
  replace fuel with (n + S (fuel - n - 1)) by lia.
  rewrite poll_loop_cycles; try assumption; try lia.
  rewrite poll_loop_terminal with (st := st).
  - unfold query. simpl.
    rewrite cycles_clock_reads, cycles_status_queries, cycles_slept,
      cycles_events. simpl. now rewrite app_nil_r.
  - now rewrite cycles_status_queries.
  - exact Hterm.
Qed.

Lemma poll_returns_first_terminal_witness :
  poll_job_until_complete ascii_only_db slow_env 9 (u "job-1") 3 5000 world0
  = (Ok (to_status_dict (with_status "COMPLETED")),
     {| clock_reads := 3; status_queries := 3;
        slept := sleeps 3 2 0; events := [] |}).
Proof.
  apply (@poll_returns_first_terminal ascii_only_db slow_env (u "job-1")
           3%Q 5000%Q 2 9 (with_status "COMPLETED")).
  - intros k Hk. exists (with_status "RUNNING").
    destruct k as [| [| k]]; [split; reflexivity | split; reflexivity | lia].
  - intros k Hk.
    destruct k as [| [| k]]; [vm_compute; discriminate
                             | vm_compute; discriminate | lia].
  - vm_compute. discriminate.
  - reflexivity.
  - reflexivity.
  - lia.
Defined.

(** X2.  A reply without a status, or with [None] as status, is never
    terminal; a status written in ASCII is terminal exactly when its
    upper-cased form is COMPLETED, FAILED or ERROR, whatever the case of its
    letters. *)
Theorem terminal_in_any_case (db : UnicodeDb) (d : status_dict) :
  (status d = Absent \/ status d = Null -> is_terminal db d = false)
  /\ (forall s, status d = Val s -> forallb is_ascii s = true ->
        (is_terminal db d = true
         <-> In (List.map ascii_upper s) terminal_statuses)).
Proof.
  unfold is_terminal, upper_status. split.
  - intros [-> | ->]; reflexivity.
  - intros s -> Hs. simpl str_of_field. unfold py_upper. rewrite Hs.
    apply str_in_In.
Qed.

Lemma terminal_in_any_case_witness :
  is_terminal ascii_only_db
    {| status := Val (u "Completed"); download_details := Null;
       result := Absent |} = true.
Proof.
  apply (proj2 (@terminal_in_any_case ascii_only_db
                  {| status := Val (u "Completed"); download_details := Null;
                     result := Absent |}) (u "Completed") eq_refl eq_refl).
  left. reflexivity.
Defined.

Lemma poll_loop_raises (db : UnicodeDb) (e : env) (job_id : str)
    (I T start : Q) (fuel : nat) (a : Z) (w : world) (x : exn) :
  get_status e (status_queries w) job_id = Raises x ->
  poll_loop db e (S fuel) job_id I T start a w
  = (Raise x, snd (query e job_id w)).
Proof. intros Hq. simpl. unfold query. now rewrite Hq. Qed.

(** X3.  An exception raised by the status endpoint is not retried: after
    [n] cycles it leaves the call as it is, [n+1] queries having been made. *)
Theorem poll_propagates_provider_error
    (db : UnicodeDb) (e : env) (job_id : str) (I T : Q) (n fuel : nat)
    (x : exn) :
  pending db e job_id 0 n ->
  in_time e T (time_time e 0) 1 n ->
  (0 <= I)%Q ->
  get_status e n job_id = Raises x ->
  n < fuel ->
  poll_job_until_complete db e fuel job_id I T world0
  = (Raise x,
     {| clock_reads := S n; status_queries := S n;
        slept := sleeps I n 0; events := [] |}).
Proof.
  intros Hp Ht HI Hq Hfuel.
  unfold poll_job_until_complete, read_clock. cbn [clock_reads world0].
  replace fuel with (n + S (fuel - n - 1)) by lia.
  rewrite poll_loop_cycles; try assumption; try lia.
  rewrite poll_loop_raises with (x := x).
  - unfold query. simpl.
    rewrite cycles_clock_reads, cycles_status_queries, cycles_slept,
      cycles_events. simpl. now rewrite app_nil_r.
  - now rewrite cycles_status_queries.
Qed.

Lemma poll_propagates_provider_error_witness :
  poll_job_until_complete ascii_only_db
    {| time_time := time_time quiet_env;
       get_status := fun _ _ => Raises (OtherException (u "401 Unauthorized"));
       open_rb := open_rb quiet_env;
       jobs_create := jobs_create quiet_env;
       requests_get := requests_get quiet_env;
       chat_invoke := chat_invoke quiet_env |}
    4 (u "job-1") 3 1800 world0
  = (Raise (OtherException (u "401 Unauthorized")),
     {| clock_reads := 1; status_queries := 1;
        slept := sleeps 3 0 0; events := [] |}).
Proof.
  apply (@poll_propagates_provider_error ascii_only_db _ (u "job-1")
           3%Q 1800%Q 0 4 (OtherException (u "401 Unauthorized"))).
  - intros k Hk. lia.
  - intros k Hk. lia.
  - vm_compute. discriminate.
  - reflexivity.
  - lia.
Defined.

Lemma poll_loop_ends (db : UnicodeDb) (e : env) (job_id : str) (I T start : Q)
    (k : nat) : forall fuel a w,
  (T < time_time e (clock_reads w + k) - start)%Q ->
  k < fuel ->
  fst (poll_loop db e fuel job_id I T start a w) <> Diverge
  /\ status_queries (snd (poll_loop db e fuel job_id I T start a w))
     <= status_queries w + S k.
Proof.
  induction k as [| k IH]; intros fuel a w Hlate Hfuel;
    (destruct fuel as [| fuel]; [lia |]);
    simpl; unfold query;
    (destruct (get_status e (status_queries w) job_id) as [st | x];
     [| simpl; split; [discriminate | lia]]);
    (destruct (is_terminal db (to_status_dict st));
     [simpl; split; [discriminate | lia] |]);
    unfold read_clock; simpl;
    (destruct (Qlt_le_dec T (time_time e (clock_reads w) - start))
       as [Hlt | Hle];
     [simpl; split; [discriminate | lia] |]).
  - exfalso. rewrite Nat.add_0_r in Hlate. exact (Qlt_not_le _ _ Hlate Hle).
  - unfold sleep.
    destruct (Qlt_le_dec (sleep_time I (a + 1)) 0);
      [simpl; split; [discriminate | lia] |].
    cbn [clock_reads status_queries slept events].
    match goal with
    | |- context [poll_loop db e fuel job_id I T start ?a' ?w'] =>
        destruct (IH fuel a' w') as [H1 H2]
    end.
    + cbn [clock_reads].
      replace (S (clock_reads w) + k) with (clock_reads w + S k) by lia.
      exact Hlate.
    + lia.
    + split; [exact H1 |]. cbn [status_queries] in H2. lia.
Qed.

(** X4.  The poll cannot go on past the timeout: when the clock reading
    taken after query [n+1] is beyond the timeout, the call has ended by
    then, by a return or an exception, after [n+1] queries at most. *)
Theorem poll_ends_by_timeout
    (db : UnicodeDb) (e : env) (job_id : str) (I T : Q) (n fuel : nat) :
  (T < time_time e (S n) - time_time e 0)%Q ->
  n < fuel ->
  fst (poll_job_until_complete db e fuel job_id I T world0) <> Diverge
  /\ status_queries
       (snd (poll_job_until_complete db e fuel job_id I T world0)) <= S n.
Proof.
  intros Hlate Hfuel. unfold poll_job_until_complete, read_clock.
  cbn [clock_reads world0].
  match goal with
  | |- context [poll_loop db e fuel job_id I T ?s ?a' ?w'] =>
      destruct (@poll_loop_ends db e job_id I T s n fuel a' w') as [H1 H2]
  end.
  - exact Hlate.
  - exact Hfuel.
  - split; [exact H1 | exact H2].
Qed.

Lemma poll_ends_by_timeout_witness :
  fst (poll_job_until_complete ascii_only_db stuck_env 6 (u "job-1") 1 4
         world0) <> Diverge
  /\ status_queries
       (snd (poll_job_until_complete ascii_only_db stuck_env 6 (u "job-1")
               1 4 world0)) <= 5.
Proof.
  apply (@poll_ends_by_timeout ascii_only_db stuck_env (u "job-1")
           1%Q 4%Q 4 6).
  - vm_compute. reflexivity.
  - lia.
Defined.

Lemma poll_loop_counts (db : UnicodeDb) (e : env) (job_id : str)
    (I T start : Q) (fuel : nat) : forall a w,
  exists k new,
    status_queries (snd (poll_loop db e fuel job_id I T start a w))
    = status_queries w + k
    /\ slept (snd (poll_loop db e fuel job_id I T start a w))
       = new ++ slept w
    /\ events (snd (poll_loop db e fuel job_id I T start a w)) = events w
    /\ List.length new <= k <= S (List.length new)
    /\ k <= fuel
    /\ (fuel = 0 \/ 1 <= k)
    /\ Forall (fun d => (0 <= d)%Q /\ (d <= 15)%Q) new.
Proof.
  induction fuel as [| fuel IH]; intros a w.
  - exists 0, []. simpl. repeat split; try lia; auto.
  - simpl. unfold query.
    destruct (get_status e (status_queries w) job_id) as [st | x].
    2: { exists 1, []. simpl. repeat split; try lia; auto. }
    destruct (is_terminal db (to_status_dict st)).
    { exists 1, []. simpl. repeat split; try lia; auto. }
    unfold read_clock. simpl.
    destruct (Qlt_le_dec T (time_time e (clock_reads w) - start)).
    { exists 1, []. simpl. repeat split; try lia; auto. }
    unfold sleep.
    destruct (Qlt_le_dec (sleep_time I (a + 1)) 0) as [| Hpos].
    { exists 1, []. simpl. repeat split; try lia; auto. }
    cbn [clock_reads status_queries slept events].
    match goal with
    | |- context [poll_loop db e fuel job_id I T start ?a' ?w'] =>
        destruct (IH a' w') as [k [new [Hq [Hs [He [Hk [Hf [_ Hd]]]]]]]]
    end.
    cbn [status_queries slept events] in Hq, Hs, He.
    exists (S k), (new ++ [sleep_time I (a + 1)]).
    rewrite Hq, Hs, He, <- app_assoc, length_app. simpl.
    repeat split; try lia.
    apply Forall_app. split; [exact Hd |].
    constructor; [| constructor].
    split; [exact Hpos | apply sleep_time_le_15].
Qed.

(** X5.  In every run the poller sleeps between two status queries, each
    sleep lasts between 0 and 15, at least one query is made, no more than
    one an iteration, and no other collaborator is called. *)
Theorem poll_sleeps_between_queries
    (db : UnicodeDb) (e : env) (fuel : nat) (job_id : str) (I T : Q) :
  let w := snd (poll_job_until_complete db e (S fuel) job_id I T world0) in
  1 <= status_queries w <= S fuel
  /\ List.length (slept w) <= status_queries w <= S (List.length (slept w))
  /\ Forall (fun d => (0 <= d)%Q /\ (d <= 15)%Q) (slept w)
  /\ events w = [].
Proof.
  unfold poll_job_until_complete, read_clock. cbn [clock_reads world0].
  match goal with
  | |- context [poll_loop db e (S fuel) job_id I T ?s ?a' ?w'] =>
      destruct (@poll_loop_counts db e job_id I T s (S fuel) a' w')
        as [k [new [Hq [Hs [He [Hk [Hf [H1 Hd]]]]]]]]
  end.
  cbn zeta. rewrite Hq, Hs, He. cbn [status_queries slept events world0].
  rewrite app_nil_r.
  assert (1 <= k) by (destruct H1; [discriminate | assumption]).
  repeat split; try lia; try assumption.
Qed.

(** X6.  For an interval that is not negative the sleep never shrinks as the
    attempts go by, and it is never below [min(I, 15)]. *)
Theorem sleep_time_monotone (I : Q) (a b : Z) :
  (0 <= I)%Q -> (0 <= a <= b)%Z ->
  (sleep_time I a <= sleep_time I b)%Q /\ (Qmin I 15 <= sleep_time I a)%Q.
Proof.
  intros HI [Ha Hab]. unfold sleep_time. split.
  - apply Q.min_le_compat_r.
    rewrite (Qmult_comm I), (Qmult_comm I (inject_Z (1 + b / 10))).
    apply Qmult_le_compat_r; [| exact HI].
    rewrite <- Zle_Qle. apply Z.add_le_mono_l.
    apply Z.div_le_mono; lia.
  - apply Q.min_le_compat_r.
    setoid_replace I with (I * inject_Z 1)%Q at 1 by (simpl; ring).
    rewrite (Qmult_comm I), (Qmult_comm I (inject_Z (1 + a / 10))).
    apply Qmult_le_compat_r; [| exact HI].
    rewrite <- Zle_Qle. pose proof (attempt_bucket_pos Ha). lia.
Qed.

Lemma sleep_time_monotone_witness :
  (sleep_time 3 9 <= sleep_time 3 25)%Q /\ (Qmin 3 15 <= sleep_time 3 9)%Q.
Proof. apply (@sleep_time_monotone 3%Q 9%Z 25%Z); [vm_compute; discriminate | lia]. Defined.

(** X7.  A negative poll interval stops the poll at its first sleep: when
    the first status is not terminal and the timeout has not elapsed, the
    call ends in the ValueError of [time.sleep] after a single query. *)
Theorem poll_rejects_negative_interval
    (db : UnicodeDb) (e : env) (job_id : str) (I T : Q) (fuel : nat)
    (st : provider_status) :
  (I < 0)%Q ->
  get_status e 0 job_id = Returns st ->
  is_terminal db (to_status_dict st) = false ->
  (time_time e 1 - time_time e 0 <= T)%Q ->
  poll_job_until_complete db e (S fuel) job_id I T world0
  = (Raise (ValueError (u "sleep length must be non-negative")),
     {| clock_reads := 2; status_queries := 1; slept := []; events := [] |}).
Proof.
  intros HI Hq Hnt Ht.
  unfold poll_job_until_complete, read_clock. cbn [clock_reads world0].
  simpl. unfold query. simpl. rewrite Hq, Hnt. unfold read_clock. simpl.
  destruct (Qlt_le_dec T (time_time e 1 - time_time e 0)) as [Hlt | _].
  { exfalso. exact (Qlt_not_le _ _ Hlt Ht). }
  unfold sleep.
  destruct (Qlt_le_dec (sleep_time I 1) 0) as [_ | Hpos];
    [reflexivity |].
  exfalso. apply (Qlt_not_le _ _ HI).
  apply Qle_trans with (y := sleep_time I 1); [exact Hpos |].
  unfold sleep_time. simpl.
  apply Qle_trans with (y := (I * 1)%Q); [apply Q.le_min_l |].
  setoid_replace (I * 1)%Q with I by ring. apply Qle_refl.
Qed.

Lemma poll_rejects_negative_interval_witness :
  poll_job_until_complete ascii_only_db stuck_env 3 (u "job-1") (-1) 1800
    world0
  = (Raise (ValueError (u "sleep length must be non-negative")),
     {| clock_reads := 2; status_queries := 1; slept := []; events := [] |}).
Proof.
  apply (@poll_rejects_negative_interval ascii_only_db stuck_env (u "job-1")
           (-1)%Q 1800%Q 2 (with_status "RUNNING"));
    try reflexivity; vm_compute; discriminate.
Defined.

(** ** Fetching the source video and submitting it *)

Lemma split_on_head (sep : N) (s : str) :
  exists h t,
    split_on sep s = h :: t
    /\ ~ In sep h
    /\ (s = h /\ ~ In sep s \/ exists r, s = h ++ sep :: r).
Proof.
  induction s as [| c s [h [t [Hs [Hh Hr]]]]].
  - exists [], []. simpl. split; [reflexivity |]. split; [tauto |].
    left. split; [reflexivity | tauto].
  - simpl. destruct (N.eqb_spec c sep) as [-> | Hc].
    + exists [], (split_on sep s). split; [reflexivity |].
      split; [simpl; tauto |]. right. exists s. reflexivity.
    + rewrite Hs. exists (c :: h), t. split; [reflexivity |]. split.
      * simpl. intros [E | E]; [congruence | contradiction].
      * destruct Hr as [[-> Hn] | [r ->]].
        -- left. split; [reflexivity |].
           simpl. intros [E | E]; [congruence | contradiction].
        -- right. exists r. reflexivity.
Qed.

Lemma existsb_eqb_In (x : N) (s : str) : existsb (N.eqb x) s = true <-> In x s.
Proof.
  rewrite existsb_exists. split.
  - intros [y [Hy E]]. apply N.eqb_eq in E. now subst.
  - intros H. exists x. split; [exact H | apply N.eqb_refl].
Qed.

(** X8.  [clean_youtube_url] returns what stands before the first
    ampersand: the result has no ampersand, the URL is the result followed by
    nothing or by an ampersand and the rest (so a URL without ampersand is
    returned as it is), and cleaning twice changes nothing more. *)
Theorem clean_youtube_url_cuts_at_ampersand (url : str) :
  ~ In AMP (clean_youtube_url url)
  /\ (clean_youtube_url url = url
      \/ exists r, url = clean_youtube_url url ++ AMP :: r)
  /\ clean_youtube_url (clean_youtube_url url) = clean_youtube_url url.
Proof.
  assert (Hno : forall v, ~ In AMP v -> clean_youtube_url v = v).
  { intros v Hv. unfold clean_youtube_url.
    destruct (existsb (N.eqb AMP) v) eqn:E; [| reflexivity].
    apply existsb_eqb_In in E. contradiction. }
  assert (Hfree : ~ In AMP (clean_youtube_url url)).
  { unfold clean_youtube_url.
    destruct (existsb (N.eqb AMP) url) eqn:E.
    - destruct (split_on_head AMP url) as [h [t [Hs [Hh _]]]].
      rewrite Hs. exact Hh.
    - intros H. apply existsb_eqb_In in H. congruence. }
  split; [exact Hfree |]. split; [| now apply Hno].
  unfold clean_youtube_url.
  destruct (existsb (N.eqb AMP) url) eqn:E; [| now left].
  destruct (split_on_head AMP url) as [h [t [Hs [Hh Hr]]]].
  rewrite Hs. simpl. destruct Hr as [[-> _] | [r Hr]].
  - now left.
  - right. exists r. exact Hr.
Qed.

Lemma basename_spec (p : str) :
  ~ In SLASH (basename p)
  /\ exists dir, p = dir ++ basename p
                 /\ (dir = [] \/ exists d, dir = d ++ [SLASH]).
Proof.
  induction p as [| c p [IHn [dir [IHd IHs]]]].
  - split; [simpl; tauto |]. exists []. split; [reflexivity | now left].
  - cbn [basename]. destruct (existsb (N.eqb 47) p) eqn:E.
    + split; [exact IHn |]. exists (c :: dir). split.
      * simpl. now rewrite <- IHd.
      * right. destruct IHs as [-> | [d ->]].
        -- (* a slash in [p] but an empty directory part: impossible *)
           exfalso. apply existsb_eqb_In in E. simpl in IHd.
           rewrite IHd in E. contradiction.
        -- exists (c :: d). reflexivity.
    + assert (Hp : ~ In SLASH p).
      { intros H. apply existsb_eqb_In in H. unfold SLASH in H. congruence. }
      destruct (N.eqb_spec c 47) as [-> | Hc].
      * split; [exact Hp |]. exists [SLASH]. split; [reflexivity |].
        right. exists []. reflexivity.
      * split.
        -- simpl. intros [H | H]; [unfold SLASH in H; congruence
                                  | contradiction].
        -- exists []. split; [reflexivity | now left].
Qed.

(** X9.  With an accepted locale, [create_dub_job] opens the file and, when
    that succeeds, calls the provider once, with the one requested locale,
    the given priority, the content of the file and as file name the part of
    the path after its last slash; when the file cannot be opened the
    exception leaves the call and the provider is not called. *)
Theorem create_submits_once
    (e : env) (file_path target_locale priority : str) (w : world) :
  In target_locale TARGET_LOCALES ->
  (forall f, open_rb e file_path = Returns f ->
     events (snd (create_dub_job e file_path target_locale priority w))
     = EvCreate [target_locale] (basename file_path) f priority
         :: EvOpen file_path :: events w)
  /\ (forall x, open_rb e file_path = Raises x ->
        create_dub_job e file_path target_locale priority w
        = (Raise x, log (EvOpen file_path) w))
  /\ ~ In SLASH (basename file_path)
  /\ exists dir, file_path = dir ++ basename file_path
                 /\ (dir = [] \/ exists d, dir = d ++ [SLASH]).
Proof.
  intros Hin. apply str_in_In in Hin. unfold create_dub_job. rewrite Hin.
  cbn [negb]. split; [| split; [| apply basename_spec]].
  - intros f ->.
    destruct (jobs_create e [target_locale] (basename file_path) f priority)
      as [[i j | i j [x |]] | x]; try reflexivity.
    destruct (is_Exception x); reflexivity.
  - intros x ->. reflexivity.
Qed.

Lemma create_submits_once_witness :
  events (snd (create_dub_job quiet_env (u "downloads/talk.mp4") (u "ta_IN")
                 (u "LOW") world0))
  = [EvCreate [u "ta_IN"] (basename (u "downloads/talk.mp4")) [] (u "LOW");
     EvOpen (u "downloads/talk.mp4")].
Proof.
  apply (proj1 (@create_submits_once quiet_env (u "downloads/talk.mp4")
                  (u "ta_IN") (u "LOW") world0
                  ltac:(apply str_in_In; vm_compute; reflexivity))).
  reflexivity.
Defined.

(** X10.  The identifier of the job is the reply's [id] when that is a
    non-empty string; otherwise it is whatever stands under [job_id], and
    [None] when that is missing too. *)
Theorem create_identifier_fallback
    (e : env) (file_path target_locale priority : str) (w : world)
    (f : list byte) (i j : field str) :
  In target_locale TARGET_LOCALES ->
  open_rb e file_path = Returns f ->
  jobs_create e [target_locale] (basename file_path) f priority
  = Returns (ReplyDict i j) ->
  exists job,
    fst (create_dub_job e file_path target_locale priority w) = Ok job
    /\ (truthy i = true -> job_ident job = i)
    /\ (truthy i = false -> job_ident job = get_or_none j)
    /\ job_ident job <> Absent.
Proof.
  intros Hin Hopen Hcreate. apply str_in_In in Hin.
  unfold create_dub_job. rewrite Hin, Hopen, Hcreate. cbn [negb fst].
  eexists. split; [reflexivity |]. cbn [job_ident]. unfold py_or.
  destruct i as [| | [| c i]]; destruct j as [| | v]; cbn;
    repeat split; intros; try discriminate; reflexivity.
Qed.

Lemma create_identifier_fallback_witness :
  exists job,
    fst (create_dub_job
           {| time_time := time_time quiet_env;
              get_status := get_status quiet_env;
              open_rb := open_rb quiet_env;
              jobs_create :=
                fun _ _ _ _ => Returns (ReplyDict (Val []) (Val (u "j-42")));
              requests_get := requests_get quiet_env;
              chat_invoke := chat_invoke quiet_env |}
           (u "talk.mp4") (u "ta_IN") (u "LOW") world0) = Ok job
    /\ (truthy (Val []) = true -> job_ident job = Val [])
    /\ (truthy (Val []) = false -> job_ident job = get_or_none (Val (u "j-42")))
    /\ job_ident job <> Absent.
Proof.
  apply (@create_identifier_fallback _ (u "talk.mp4") (u "ta_IN") (u "LOW")
           world0 [] (Val []) (Val (u "j-42"))).
  - apply str_in_In. vm_compute. reflexivity.
  - reflexivity.
  - reflexivity.
Defined.

Lemma starts_with_length (p s : str) :
  starts_with p s = true -> List.length p <= List.length s.
Proof.
  revert s. induction p as [| a p IH]; intros s H; simpl; [lia |].
  destruct s as [| b s]; [discriminate H |].
  simpl in H. apply andb_true_iff in H. destruct H as [_ H].
  apply IH in H. simpl. lia.
Qed.

Lemma replace_from_skip (old new : str) (n : nat) : forall s,
  n <= List.length s ->
  replace_from old new n s = replace_from old new 0 (skipn n s).
Proof.
  induction n as [| n IH]; intros s H; [reflexivity |].
  destruct s as [| c s]; [simpl in H; lia |].
  simpl. apply IH. simpl in H. lia.
Qed.

Lemma replace_from_hit (old new : str) (c : N) (s : str) :
  old <> [] -> starts_with old (c :: s) = true ->
  replace_from old new 0 (c :: s)
  = new ++ replace_from old new 0 (skipn (List.length old) (c :: s)).
Proof.
  intros Hold H. cbn [replace_from]. rewrite H.
  pose proof (starts_with_length _ _ H) as Hlen.
  destruct old as [| a old]; [contradiction |].
  simpl in Hlen.
  replace (List.length (a :: old) - 1) with (List.length old)
    by (simpl; lia).
  rewrite replace_from_skip by lia. reflexivity.
Qed.

Lemma replace_from_miss (old new : str) (c : N) (s : str) :
  starts_with old (c :: s) = false ->
  replace_from old new 0 (c :: s) = c :: replace_from old new 0 s.
Proof. intros H. cbn [replace_from]. now rewrite H. Qed.

(** Replacing in a text where the old string does not occur changes
    nothing. *)
Lemma replace_absent (old new : str) (s : str) :
  old <> [] -> occurs old s = false -> py_replace old new s = s.
Proof.
  intros Hold. destruct old as [| a old]; [contradiction |]. simpl py_replace.
  induction s as [| c s IH]; intros H; [reflexivity |].
  simpl in H. apply orb_false_iff in H. destruct H as [H1 H2].
  rewrite replace_from_miss by exact H1. f_equal. now apply IH.
Qed.

Local Arguments N.eqb : simpl never.

(** The head of the text after the replacement of ".webm" by ".mp4", when it
    is not a full stop, is the head of the text before. *)
Lemma replace_webm_head (ch : N) (s out : str) :
  ch <> 46%N ->
  replace_from (u ".webm") (u ".mp4") 0 s = ch :: out ->
  exists s', s = ch :: s'
             /\ out = replace_from (u ".webm") (u ".mp4") 0 s'.
Proof.
  intros Hch H. destruct s as [| c s]; [discriminate H |].
  destruct (starts_with (u ".webm") (c :: s)) eqn:E.
  - rewrite replace_from_hit in H by (try discriminate; exact E).
    simpl app in H. injection H as H _. congruence.
  - rewrite replace_from_miss in H by exact E. injection H as Hc Ho.
    subst c out. exists s. split; reflexivity.
Qed.

Lemma replace_webm_gone (n : nat) : forall s,
  List.length s <= n ->
  occurs (u ".webm") (replace_from (u ".webm") (u ".mp4") 0 s) = false.
Proof.
  induction n as [| n IH]; intros s Hlen.
  - destruct s; [reflexivity | simpl in Hlen; lia].
  - destruct s as [| c s]; [reflexivity |].
    destruct (starts_with (u ".webm") (c :: s)) eqn:E.
    + rewrite replace_from_hit by (try discriminate; exact E).
      pose proof (starts_with_length _ _ E) as Hl.
      assert (Hrest : occurs (u ".webm")
                        (replace_from (u ".webm") (u ".mp4") 0
                           (skipn (List.length (u ".webm")) (c :: s)))
                      = false).
      { apply IH. rewrite length_skipn. simpl in *. lia. }
      revert Hrest.
      generalize (replace_from (u ".webm") (u ".mp4") 0
                    (skipn (List.length (u ".webm")) (c :: s))).
      intros r Hr. change (u ".mp4" ++ r) with (46 :: 109 :: 112 :: 52 :: r)%N.
      change (u ".webm") with [46; 119; 101; 98; 109]%N in *.
      cbn [occurs starts_with].
      replace (N.eqb 119 109) with false by reflexivity.
      replace (N.eqb 46 109) with false by reflexivity.
      replace (N.eqb 46 112) with false by reflexivity.
      replace (N.eqb 46 52) with false by reflexivity.
      rewrite !andb_false_r, !andb_false_l. cbn [orb].
      destruct r as [| x r]; [reflexivity |]. exact Hr.
    + rewrite replace_from_miss by exact E.
      assert (Hrest : occurs (u ".webm")
                        (replace_from (u ".webm") (u ".mp4") 0 s) = false).
      { apply IH. simpl in Hlen. lia. }
      remember (replace_from (u ".webm") (u ".mp4") 0 s) as r eqn:Hr.
      destruct (starts_with (u ".webm") (c :: r)) eqn:Es.
      * (* then [c :: s] would start with ".webm" too *)
        exfalso.
        change (u ".webm") with [46; 119; 101; 98; 109]%N in Es.
        cbn [starts_with] in Es.
        destruct r as [| r1 [| r2 [| r3 [| r4 r]]]];
          try (rewrite ?andb_false_r in Es; discriminate Es).
        repeat (apply andb_true_iff in Es; destruct Es as [? Es]).
        repeat match goal with
               | H : N.eqb _ _ = true |- _ => apply N.eqb_eq in H
               end.
        subst c r1 r2 r3 r4. symmetry in Hr.
        destruct (@replace_webm_head 119 s _ ltac:(discriminate) Hr)
          as [s1 [-> Hr1]]. symmetry in Hr1.
        destruct (@replace_webm_head 101 s1 _ ltac:(discriminate) Hr1)
          as [s2 [-> Hr2]]. symmetry in Hr2.
        destruct (@replace_webm_head 98 s2 _ ltac:(discriminate) Hr2)
          as [s3 [-> Hr3]]. symmetry in Hr3.
        destruct (@replace_webm_head 109 s3 _ ltac:(discriminate) Hr3)
          as [s4 [-> _]].
        vm_compute in E. discriminate E.
      * cbn [occurs]. rewrite Es. cbn [orb]. exact Hrest.
Qed.

Lemma download_ok_site
    (m : media_env) (url out_dir : str) (w w' : site) (path : str) :
  download_youtube_highest_mp4 m url out_dir w = (Ok path, w') ->
  yt_runs w'
  = (clean_youtube_url url, path_join out_dir (u "%(title)s.%(ext)s"))
      :: yt_runs w
  /\ outside w' = outside w
  /\ exists name,
       yt_dlp m (clean_youtube_url url)
         (path_join out_dir (u "%(title)s.%(ext)s")) = Returns name
       /\ path = py_replace (u ".webm") (u ".mp4") name.
Proof.
  unfold download_youtube_highest_mp4. intros H.
  destruct (makedirs m out_dir) as [[] | x].
  2: { destruct (is_Exception x); discriminate H. }
  destruct (yt_dlp m (clean_youtube_url url)
              (path_join out_dir (u "%(title)s.%(ext)s"))) as [name | x].
  2: { destruct (is_Exception x); discriminate H. }
  injection H as <- <-. cbn [yt_runs outside].
  split; [reflexivity | split; [reflexivity |]].
  exists name. split; reflexivity.
Qed.

(** X11.  A path returned by [download_youtube_highest_mp4] never contains
    ".webm"; it is the file name that yt-dlp prepared whenever that name has
    no ".webm" in it.  yt-dlp has been run once, on the cleaned URL, with the
    template placed in the output directory. *)
Theorem download_returns_no_webm
    (m : media_env) (url out_dir : str) (w w' : site) (path : str) :
  download_youtube_highest_mp4 m url out_dir w = (Ok path, w') ->
  occurs (u ".webm") path = false
  /\ yt_runs w'
     = (clean_youtube_url url, path_join out_dir (u "%(title)s.%(ext)s"))
         :: yt_runs w
  /\ outside w' = outside w
  /\ exists name,
       yt_dlp m (clean_youtube_url url)
         (path_join out_dir (u "%(title)s.%(ext)s")) = Returns name
       /\ (occurs (u ".webm") name = false -> path = name).
Proof.
  intros H.
  destruct (download_ok_site _ _ _ _ H) as [Hruns [Hout [name [Hname ->]]]].
  split; [| split; [exact Hruns | split; [exact Hout |]]].
  - apply replace_webm_gone with (n := List.length name). lia.
  - exists name. split; [exact Hname |]. intros Hn.
    apply replace_absent; [discriminate | exact Hn].
Qed.

Lemma download_returns_no_webm_witness :
  occurs (u ".webm") (u "downloads/Lecture 1.mp4") = false
  /\ yt_runs
       {| outside := world0;
          yt_runs := [(u "https://youtu.be/x1?v=2",
                       u "downloads/%(title)s.%(ext)s")] |}
     = (clean_youtube_url (u "https://youtu.be/x1?v=2&t=30s"),
        path_join default_out_dir (u "%(title)s.%(ext)s")) :: yt_runs site0
  /\ outside
       {| outside := world0;
          yt_runs := [(u "https://youtu.be/x1?v=2",
                       u "downloads/%(title)s.%(ext)s")] |}
     = outside site0
  /\ exists name,
       yt_dlp webm_env (clean_youtube_url (u "https://youtu.be/x1?v=2&t=30s"))
         (path_join default_out_dir (u "%(title)s.%(ext)s")) = Returns name
       /\ (occurs (u ".webm") name = false
           -> u "downloads/Lecture 1.mp4" = name).
Proof.
  apply (@download_returns_no_webm webm_env
           (u "https://youtu.be/x1?v=2&t=30s") default_out_dir site0).
  vm_compute. reflexivity.
Defined.

(** X12.  Whatever exception the preparation of the directory or the run of
    yt-dlp raises, [download_youtube_highest_mp4] raises a plain Exception
    whose text is "Failed to download Youtube video with yt-dlp: " followed
    by the text of the cause; when the directory cannot be made, yt-dlp is
    not run. *)
Theorem download_wraps_every_error
    (m : media_env) (url out_dir : str) (w : site) (x : exn) :
  is_Exception x = true ->
  (makedirs m out_dir = Raises x ->
   download_youtube_highest_mp4 m url out_dir w
   = (Raise (OtherException
               (u "Failed to download Youtube video with yt-dlp: "
                ++ exn_msg x)), w))
  /\ (makedirs m out_dir = Returns tt ->
      yt_dlp m (clean_youtube_url url)
        (path_join out_dir (u "%(title)s.%(ext)s")) = Raises x ->
      fst (download_youtube_highest_mp4 m url out_dir w)
      = Raise (OtherException
                 (u "Failed to download Youtube video with yt-dlp: "
                  ++ exn_msg x))).
Proof.
  intros Hx. unfold download_youtube_highest_mp4. split.
  - intros ->. now rewrite Hx.
  - intros -> ->. now rewrite Hx.
Qed.

Lemma download_wraps_every_error_witness :
  fst (download_youtube_highest_mp4 offline_env (u "https://youtu.be/x1")
         default_out_dir site0)
  = Raise (OtherException
             (u "Failed to download Youtube video with yt-dlp: "
              ++ exn_msg (OtherException (u "HTTP Error 403")))).
Proof.
  apply (proj2 (@download_wraps_every_error offline_env
                  (u "https://youtu.be/x1") default_out_dir site0
                  (OtherException (u "HTTP Error 403")) eq_refl));
    reflexivity.
Defined.

(** X13.  POST /api/dub checks the locale only after the video has been
    fetched: with a locale that is not supported and a download that
    succeeds, yt-dlp has been run, and then the request fails with the
    ValueError of the locale check, no file opened and no provider call
    made. *)
Theorem api_dub_start_checks_locale_late
    (m : media_env) (e : env) (youtube_url target_locale : str)
    (w w1 : site) (mp4_path : str) :
  download_youtube_highest_mp4 m youtube_url default_out_dir w
  = (Ok mp4_path, w1) ->
  ~ In target_locale TARGET_LOCALES ->
  api_dub_start m e youtube_url target_locale w
  = (Raise (invalid_locale target_locale), w1)
  /\ yt_runs w1
     = (clean_youtube_url youtube_url, u "downloads/%(title)s.%(ext)s")
         :: yt_runs w
  /\ outside w1 = outside w.
Proof.
  intros Hd Hl. unfold api_dub_start. rewrite Hd.
  destruct (download_ok_site _ _ _ _ Hd) as [Hruns [Hout _]].
  split; [| split; [exact Hruns | exact Hout]].
  unfold create_dub_job.
  destruct (str_in target_locale TARGET_LOCALES) eqn:E.
  - apply str_in_In in E. contradiction.
  - cbn [negb]. destruct w1. reflexivity.
Qed.

Lemma api_dub_start_checks_locale_late_witness :
  api_dub_start webm_env quiet_env (u "https://youtu.be/x1?v=2&t=30s")
    (u "en_GB") site0
  = (Raise (invalid_locale (u "en_GB")),
     {| outside := world0;
        yt_runs := [(u "https://youtu.be/x1?v=2",
                     u "downloads/%(title)s.%(ext)s")] |})
  /\ yt_runs
       {| outside := world0;
          yt_runs := [(u "https://youtu.be/x1?v=2",
                       u "downloads/%(title)s.%(ext)s")] |}
     = (clean_youtube_url (u "https://youtu.be/x1?v=2&t=30s"),
        u "downloads/%(title)s.%(ext)s") :: yt_runs site0
  /\ outside
       {| outside := world0;
          yt_runs := [(u "https://youtu.be/x1?v=2",
                       u "downloads/%(title)s.%(ext)s")] |}
     = outside site0.
Proof.
  apply (@api_dub_start_checks_locale_late webm_env quiet_env
           (u "https://youtu.be/x1?v=2&t=30s") (u "en_GB") site0 _
           (u "downloads/Lecture 1.mp4")).
  - vm_compute. reflexivity.
  - intros H. apply str_in_In in H. vm_compute in H. discriminate H.
Defined.

(** ** Results *)

(** X14.  Step 3 downloads nothing for a job that did not complete: a
    terminal status other than COMPLETED stops the step with "Dub job did not
    complete", and a TimeoutError of the poll with the message of the
    timeout; the world is left as the poll left it. *)
Theorem step3_stops_unfinished_job
    (db : UnicodeDb) (e : env) (fuel : nat) (job_id : str) (w w1 : world) :
  (forall final st,
     poll_job_until_complete db e fuel job_id default_poll_interval
       default_timeout_sec w = (Ok final, w1) ->
     status final = Val st -> py_upper db st <> u "COMPLETED" ->
     step3 db e fuel job_id w = (Stopped (DidNotComplete st), w1))
  /\ (forall msg,
        poll_job_until_complete db e fuel job_id default_poll_interval
          default_timeout_sec w = (Raise (TimeoutError msg), w1) ->
        step3 db e fuel job_id w = (Stopped TimedOut, w1)).
Proof.
  unfold step3. split.
  - intros final st -> Hst Hup. unfold resolve. rewrite Hst.
    destruct (str_eqb (py_upper db st) (u "COMPLETED")) eqn:E.
    + apply str_eqb_eq in E. contradiction.
    + reflexivity.
  - intros msg ->. reflexivity.
Qed.

Lemma step3_stops_unfinished_job_witness :
  step3 ascii_only_db failed_env 3 (u "job-1") world0
  = (Stopped (DidNotComplete (u "failed")),
     {| clock_reads := 1; status_queries := 1; slept := []; events := [] |}).
Proof.
  apply (proj1 (@step3_stops_unfinished_job ascii_only_db failed_env 3
                  (u "job-1") world0 _)
           (to_status_dict (with_status "failed")) (u "failed")).
  - vm_compute. reflexivity.
  - reflexivity.
  - vm_compute. discriminate.
Defined.

(** X15.  With both URLs in the first descriptor the dubbed media is
    fetched first and the subtitles second; an exception while fetching the
    subtitles goes to the handlers of the step, which never end it with the
    downloads: the dubbed video that was already fetched is not kept. *)
Theorem resolve_fetches_video_then_subtitles
    (db : UnicodeDb) (e : env) (final : status_dict) (w : world)
    (st : str) (first : descriptor) (others : list descriptor)
    (url srt : str) (video : list byte) :
  status final = Val st ->
  py_upper db st = u "COMPLETED" ->
  download_details final = Val (first :: others) ->
  download_url first = Val url -> url <> [] ->
  download_srt_url first = Val srt -> srt <> [] ->
  requests_get e url = Returns video ->
  (forall subtitles, requests_get e srt = Returns subtitles ->
     resolve db e final w
     = (Fetched video (Some subtitles),
        log (EvDownload srt) (log (EvDownload url) w)))
  /\ (forall x, requests_get e srt = Raises x ->
        resolve db e final w
        = (handle x, log (EvDownload srt) (log (EvDownload url) w))
        /\ forall v s, handle x <> Fetched v s).
Proof.
  intros Hst Hup Hd Hu Hune Hs Hsne Hget.
  unfold resolve. rewrite Hst, Hup, Hd, Hu, Hs. cbn.
  destruct url as [| c url]; [contradiction |].
  destruct srt as [| c' srt]; [contradiction |].
  unfold download_url_bytes. rewrite Hget. split.
  - intros subtitles ->. reflexivity.
  - intros x ->. split; [reflexivity |].
    intros v s. destruct x; discriminate.
Qed.

Lemma resolve_fetches_video_then_subtitles_witness :
  resolve ascii_only_db no_subtitles_env media_and_subtitles world0
  = (Stopped (ErrorDuringDubbing (OtherException (u "404 Client Error"))),
     log (EvDownload (u "https://cdn.example/dub.srt"))
       (log (EvDownload (u "https://cdn.example/dub.mp4")) world0)).
Proof.
  apply (proj2 (@resolve_fetches_video_then_subtitles ascii_only_db
                  no_subtitles_env media_and_subtitles world0
                  (u "COMPLETED")
                  {| download_url := Val (u "https://cdn.example/dub.mp4");
                     download_srt_url :=
                       Val (u "https://cdn.example/dub.srt") |}
                  [] (u "https://cdn.example/dub.mp4")
                  (u "https://cdn.example/dub.srt") [x00; x01; x02]
                  eq_refl eq_refl eq_refl eq_refl
                  ltac:(discriminate) eq_refl ltac:(discriminate) eq_refl)
           (OtherException (u "404 Client Error")) eq_refl).
Defined.

(** X16.  Only the first download descriptor counts: the outcome of the
    resolution and the downloads made are the same with the other
    descriptors removed, and there are never more than two downloads. *)
Theorem resolve_reads_first_descriptor
    (db : UnicodeDb) (e : env) (final : status_dict) (w : world)
    (first : descriptor) (others : list descriptor) :
  download_details final = Val (first :: others) ->
  resolve db e final w
  = resolve db e {| status := status final;
                    download_details := Val [first];
                    result := result final |} w
  /\ exists new,
       events (snd (resolve db e final w)) = new ++ events w
       /\ List.length new <= 2
       /\ forall ev, In ev new ->
            ev = EvDownload (str_of_field (download_url first))
            \/ ev = EvDownload (str_of_field (download_srt_url first)).
Proof.
  intros Hd. unfold resolve. rewrite Hd. cbn [status download_details].
  split; [reflexivity |].
  destruct (status final) as [| | st];
    try (exists []; cbn; repeat split; [lia | contradiction]).
  destruct (negb (str_eqb (py_upper db st) (u "COMPLETED")));
    try (exists []; cbn; repeat split; [lia | contradiction]).
  destruct (download_url first) as [| | [| c url]] eqn:Eu;
    try (exists []; cbn; repeat split; [lia | contradiction]).
  unfold download_url_bytes.
  destruct (requests_get e (c :: url)) as [video | x].
  2: { exists [EvDownload (c :: url)]. cbn.
       repeat split; [lia |]. intros ev [<- | []]. now left. }
  destruct (download_srt_url first) as [| | [| c' srt]]; cbn;
    try (exists [EvDownload (c :: url)]; cbn;
         repeat split; [lia |]; intros ev [<- | []]; now left).
  exists [EvDownload (c' :: srt); EvDownload (c :: url)].
  destruct (requests_get e (c' :: srt)); cbn;
    (repeat split; [lia |]; intros ev [<- | [<- | []]];
     [now right | now left]).
Qed.

Lemma resolve_reads_first_descriptor_witness :
  resolve ascii_only_db serving_env two_descriptors world0
  = resolve ascii_only_db serving_env
      {| status := status two_descriptors;
         download_details := Val [first_of_two];
         result := result two_descriptors |} world0
  /\ exists new,
       events (snd (resolve ascii_only_db serving_env two_descriptors world0))
       = new ++ events world0
       /\ List.length new <= 2
       /\ forall ev, In ev new ->
            ev = EvDownload (str_of_field (download_url first_of_two))
            \/ ev = EvDownload (str_of_field (download_srt_url first_of_two)).
Proof.
  apply (@resolve_reads_first_descriptor ascii_only_db serving_env
           two_descriptors world0 first_of_two [second_of_two]).
  reflexivity.
Defined.

Lemma notes_for_shape (db : UnicodeDb) (e : env) (sub : field str)
    (w w' : world) (notes : field str) :
  notes_for db e sub w = (Ok notes, w') ->
  (truthy sub = false -> notes = Null /\ w' = w)
  /\ (truthy sub = true -> exists text, notes = Val text).
Proof.
  unfold notes_for. intros H.
  destruct sub as [| | [| c url]]; cbn;
    try (injection H as <- <-; split; [now split | discriminate]).
  split; [discriminate | intros _].
  unfold download_url_bytes in H.
  destruct (requests_get e (c :: url)) as [srt_bytes | x].
  - destruct (generate_notes_from_text db e (srt_to_plain_text db srt_bytes)
                (log (EvDownload (c :: url)) w)) as [[n | x |] w2].
    + injection H as <- _. now eexists.
    + destruct (is_Exception x); [| discriminate H].
      injection H as <- _. now eexists.
    + discriminate H.
  - destruct (is_Exception x); [| discriminate H].
    injection H as <- _. now eexists.
Qed.

(** X17.  A full reply of GET /api/dub_status carries the status in lower
    case, one of "completed", "failed" and "error"; its notes are [None]
    exactly when no subtitle URL was found, and then nothing was fetched. *)
Theorem api_dub_status_reply_shape
    (db : UnicodeDb) (e : env) (fuel : nat) (job_id : str) (w w' : world)
    (s : str) (dubbed subtitles notes : field str) :
  api_dub_status db e fuel job_id w
  = (Ok (Full s dubbed subtitles notes), w') ->
  In s lower_statuses
  /\ (truthy subtitles = false -> notes = Null /\ events w' = events w)
  /\ (truthy subtitles = true -> exists text, notes = Val text).
Proof.
  unfold api_dub_status. intros H.
  destruct (poll_job_until_complete db e fuel job_id default_poll_interval
              default_timeout_sec w) as [[st | x |] w1] eqn:Hp;
    try discriminate H.
  assert (Hev : events w1 = events w).
  { unfold poll_job_until_complete, read_clock in Hp.
    match type of Hp with
    | poll_loop db e fuel job_id ?I ?T ?s0 ?a' ?w0 = _ =>
        destruct (@poll_loop_counts db e job_id I T s0 fuel a' w0)
          as [k [new [_ [_ [He _]]]]]
    end.
    rewrite Hp in He. exact He. }
  destruct (str_in (py_upper db (str_of_field (status st)))
              terminal_statuses) eqn:Hterm; [| discriminate H].
  cbn [negb] in H.
  match type of H with
  | context [notes_for db e ?sub w1] =>
      destruct (notes_for db e sub w1) as [[n | x |] w2] eqn:Hn;
        try discriminate H;
        injection H as <- <- <- <- <-;
        destruct (notes_for_shape _ _ _ _ Hn) as [Hnone Hsome]
  end.
  split; [| split].
  - apply str_in_In in Hterm.
    destruct Hterm as [<- | [<- | [<- | []]]]; vm_compute; auto.
  - intros Hf. destruct (Hnone Hf) as [-> ->]. now split.
  - exact Hsome.
Qed.

Lemma api_dub_status_reply_shape_witness :
  In (u "completed") lower_statuses.
Proof.
  eapply (@api_dub_status_reply_shape ascii_only_db unreachable_env 2
            (u "job-1") world0).
  vm_compute. reflexivity.
Defined.



(** ** Transcription *)

Lemma count_newlines_app (a b : str) :
  count_newlines (a ++ b) = count_newlines a + count_newlines b.
Proof. unfold count_newlines. apply count_occ_app. Qed.

Lemma count_newlines_strip (db : UnicodeDb) (s : str) :
  count_newlines (py_strip db s) <= count_newlines s.
Proof.
  destruct (py_strip_infix db s) as [l [r H]].
  rewrite H at 2. rewrite !count_newlines_app. lia.
Qed.

Lemma first_line_no_boundary (s : str) :
  Forall (fun c => is_line_boundary c = false) (first_line s).
Proof.
  induction s as [| c s IH]; simpl; [constructor |].
  destruct (is_line_boundary c) eqn:E; constructor; assumption.
Qed.

Lemma first_line_fixed (s : str) :
  Forall (fun c => is_line_boundary c = false) s -> first_line s = s.
Proof.
  induction 1 as [| c s Hc _ IH]; simpl; [reflexivity |].
  now rewrite Hc, IH.
Qed.

Lemma no_boundary_no_newline (s : str) :
  Forall (fun c => is_line_boundary c = false) s -> count_newlines s = 0.
Proof.
  unfold count_newlines. induction 1 as [| c s Hc _ IH]; [reflexivity |].
  simpl. destruct (N.eq_dec c NL) as [-> | _]; [discriminate Hc | exact IH].
Qed.

(** X19.  [gemini_asr] raises no Exception: whatever fails (the model
    object, the audio file, the request or the reading of the reply), it
    returns the text "[Transcription failed: ...]" with the text of the
    error, which is what its caller looks for. *)
Theorem gemini_asr_reports_failure
    (db : UnicodeDb) (e : env) (g : gemini) (audio_path : str) (x : exn) :
  is_Exception x = true ->
  GenerativeModel g (u "models/gemini-1.5-pro") = Raises x
  \/ GenerativeModel g (u "models/gemini-1.5-pro") = Returns tt
     /\ (open_rb e audio_path = Raises x
         \/ exists audio_bytes,
              open_rb e audio_path = Returns audio_bytes
              /\ generate_content_text g TRANSCRIBE_PROMPT audio_bytes
                 = Raises x) ->
  gemini_asr db e g audio_path = Ok (transcription_failed x)
  /\ starts_with (u "[Transcription failed") (transcription_failed x) = true.
Proof.
  intros Hx H. split; [| reflexivity].
  unfold gemini_asr.
  destruct H as [-> | [-> [-> | [audio_bytes [-> ->]]]]]; now rewrite Hx.
Qed.

Lemma gemini_asr_reports_failure_witness :
  gemini_asr ascii_only_db quiet_env blocked (u "/tmp/q.wav")
  = Ok (transcription_failed (ValueError (u "response was blocked")))
  /\ starts_with (u "[Transcription failed")
       (transcription_failed (ValueError (u "response was blocked"))) = true.
Proof.
  apply (@gemini_asr_reports_failure ascii_only_db quiet_env blocked
           (u "/tmp/q.wav") (ValueError (u "response was blocked")) eq_refl).
  right. split; [reflexivity |]. right. exists []. split; reflexivity.
Defined.

(** X20.  When the speech model answers, [gemini_asr] returns a text with at
    most two newlines: the stripped reply when that has at most two newlines
    and at most 500 characters, else its first line, stripped.  The first
    line is not shortened: a reply on one line is returned whole, stripped,
    however long it is. *)
Theorem gemini_asr_keeps_it_short
    (db : UnicodeDb) (e : env) (g : gemini) (audio_path : str)
    (audio_bytes : list byte) (reply : field str) :
  GenerativeModel g (u "models/gemini-1.5-pro") = Returns tt ->
  open_rb e audio_path = Returns audio_bytes ->
  generate_content_text g TRANSCRIBE_PROMPT audio_bytes = Returns reply ->
  reply <> Absent ->
  let stripped := py_strip db (match reply with Val s => s | _ => [] end) in
  exists text,
    gemini_asr db e g audio_path = Ok text
    /\ count_newlines text <= 2
    /\ (count_newlines stripped <= 2 -> List.length stripped <= 500 ->
        text = stripped)
    /\ (2 < count_newlines stripped \/ 500 < List.length stripped ->
        text = py_strip db (first_line stripped))
    /\ (Forall (fun c => is_line_boundary c = false) stripped ->
        text = stripped).
Proof.
  intros Hm Ho Hg Hr stripped. unfold gemini_asr. rewrite Hm, Ho, Hg.
  destruct reply as [| | s]; [contradiction | |];
    fold stripped;
    (destruct ((2 <? count_newlines stripped)
               || (500 <? List.length stripped)) eqn:E;
     [ apply orb_true_iff in E;
       assert (Hne : stripped <> [])
         by (intros Hs; rewrite Hs in E; destruct E as [E | E];
             discriminate E);
       destruct stripped as [| c t] eqn:Es; [contradiction |];
       rewrite <- Es in *;
       exists (py_strip db (first_line stripped));
       split; [reflexivity |]; split;
       [ eapply Nat.le_trans; [apply count_newlines_strip |];
         rewrite (no_boundary_no_newline (first_line_no_boundary stripped));
         lia |];
       split; [| split];
       [ intros H1 H2; destruct E as [E | E];
         [apply Nat.ltb_lt in E | apply Nat.ltb_lt in E]; lia
       | reflexivity
       | intros Hb; rewrite (first_line_fixed Hb); apply py_strip_idem ]
     | apply orb_false_iff in E; destruct E as [E1 E2];
       apply Nat.ltb_ge in E1; apply Nat.ltb_ge in E2;
       exists stripped; split; [reflexivity |]; split; [exact E1 |];
       split; [reflexivity |]; split; [intros [H | H]; lia | reflexivity] ]).
Qed.

Lemma gemini_asr_keeps_it_short_witness :
  exists text,
    gemini_asr ascii_only_db quiet_env chatty (u "/tmp/q.wav") = Ok text
    /\ count_newlines text <= 2.
Proof.
  destruct (@gemini_asr_keeps_it_short ascii_only_db quiet_env chatty
              (u "/tmp/q.wav") []
              (Val (u ("What is a derivative?" ++ nl ++ "Sure!" ++ nl
                       ++ "A derivative is" ++ nl ++ "a rate.")%string))
              eq_refl eq_refl eq_refl ltac:(discriminate))
    as [text [H1 [H2 _]]].
  exists text. split; [exact H1 | exact H2].
Defined.

(** ** Subtitle files *)

Section CueFacts.

Variable db : UnicodeDb.

Local Arguments in_class : simpl never.

Lemma digit_in_class (d : N) :
  ascii_isdecimal d = true ->
  in_class db Digit d = true /\ in_class db Space d = false
  /\ N.eqb NL d = false.
Proof.
  intros H. unfold ascii_isdecimal in H. to_arith.
  unfold in_class, py_isdecimal, py_isspace, is_ascii, ascii_isdecimal,
    ascii_isspace, NL.
  replace (d <? 128)%N with true by (symmetry; apply N.ltb_lt; lia).
  repeat split.
  - apply andb_true_iff. split; apply N.leb_le; lia.
  - replace (d <=? 13)%N with false by (symmetry; apply N.leb_gt; lia).
    replace (d <=? 32)%N with false by (symmetry; apply N.leb_gt; lia).
    now rewrite !andb_false_r.
  - apply N.eqb_neq. lia.
Qed.

Lemma lit_in_class (c : N) : in_class db (Lit c) c = true.
Proof. unfold in_class. apply N.eqb_refl. Qed.

(** A greedy repetition followed by a character outside its class takes the
    whole run, when the rest of the pattern matches after it. *)
Lemma rep_greedy_whole_run (k : char_class)
    (cont : option N -> str -> option str) (rest out : str) :
  match rest with c :: _ => in_class db k c = false | [] => True end ->
  (forall p, cont p rest = Some out) ->
  forall run least p,
    Forall (fun c => in_class db k c = true) run ->
    least <= List.length run ->
    rep_greedy db k cont least p (run ++ rest) = Some out.
Proof.
  intros Hrest Hcont. induction run as [| c run IH]; intros least p Hrun Hl.
  - simpl in Hl. assert (least = 0) by lia. subst least. simpl app.
    destruct rest as [| c rest]; simpl.
    + apply Hcont.
    + rewrite Hrest. apply Hcont.
  - inversion Hrun as [| ? ? Hc Hrun']; subst. simpl.
    rewrite Hc. rewrite IH; [reflexivity | exact Hrun' |].
    simpl in Hl. lia.
Qed.

Lemma match_digits (r : regex) (rest out : str) :
  (forall p, match_here db r p rest = Some out) ->
  forall ds p, all_digits ds = true ->
    match_here db (digits (List.length ds) ++ r) p (ds ++ rest) = Some out.
Proof.
  intros Hr. induction ds as [| d ds IH]; intros p Hd.
  - apply Hr.
  - simpl in Hd. apply andb_true_iff in Hd. destruct Hd as [Hd Hds].
    simpl. destruct (digit_in_class d Hd) as [-> _]. now apply IH.
Qed.

Lemma match_lit (r : regex) (rest out : str) :
  (forall p, match_here db r p rest = Some out) ->
  forall s p, match_here db (List.map (fun c => One (Lit c)) s ++ r) p
                (s ++ rest) = Some out.
Proof.
  intros Hr. induction s as [| c s IH]; intros p.
  - apply Hr.
  - simpl. rewrite lit_in_class. apply IH.
Qed.

Lemma match_timestamp (r : regex) (rest out : str) (t : str) :
  is_stamp t = true ->
  (forall p, match_here db r p rest = Some out) ->
  forall p, match_here db (timestamp ++ r) p (t ++ rest) = Some out.
Proof.
  intros Ht Hr p. unfold is_stamp in Ht.
  destruct t as [| h1 [| h2 [| c1 [| m1 [| m2 [| c2 [| s1 [| s2 [| c3
    [| f1 [| f2 [| f3 [| ? ?]]]]]]]]]]]]]; try discriminate Ht.
  apply andb_true_iff in Ht. destruct Ht as [Ht E3].
  apply andb_true_iff in Ht. destruct Ht as [Ht E2].
  apply andb_true_iff in Ht. destruct Ht as [Ht E1].
  apply N.eqb_eq in E1, E2, E3. subst c1 c2 c3.
  unfold timestamp, lit. rewrite <- !app_assoc.
  change ([h1; h2; 58; m1; m2; 58; s1; s2; 44; f1; f2; f3] ++ rest)%N
    with ([h1; h2] ++ [58] ++ [m1; m2] ++ [58] ++ [s1; s2] ++ [44]
          ++ [f1; f2; f3] ++ rest)%N.
  unfold all_digits in Ht. cbn [forallb] in Ht.
  repeat (apply andb_true_iff in Ht; let H := fresh "D" in
          destruct Ht as [H Ht]).
  apply match_digits with (ds := [h1; h2]); [| cbn; now rewrite D, D0].
  intros ?. apply match_lit with (s := [58%N]).
  intros ?. apply match_digits with (ds := [m1; m2]);
    [| cbn; now rewrite D1, D2].
  intros ?. apply match_lit with (s := [58%N]).
  intros ?. apply match_digits with (ds := [s1; s2]);
    [| cbn; now rewrite D3, D4].
  intros ?. apply match_lit with (s := [44%N]).
  intros ?. apply match_digits with (ds := [f1; f2; f3]);
    [| cbn; now rewrite D5, D6, D7].
  exact Hr.
Qed.

Lemma stamp_head (t : str) :
  is_stamp t = true ->
  exists d t', t = d :: t' /\ ascii_isdecimal d = true.
Proof.
  intros Ht. unfold is_stamp in Ht.
  destruct t as [| h1 [| h2 [| c1 [| m1 [| m2 [| c2 [| s1 [| s2 [| c3
    [| f1 [| f2 [| f3 [| ? ?]]]]]]]]]]]]]; try discriminate Ht.
  exists h1. eexists. split; [reflexivity |].
  do 3 (apply andb_true_iff in Ht; destruct Ht as [Ht _]).
  unfold all_digits in Ht. cbn [forallb] in Ht.
  apply andb_true_iff in Ht. apply Ht.
Qed.

(** [\s*\n] before a digit: the newline that [\s*] took is given back. *)
Lemma match_spaces_newline (r : regex) (d : N) (rest out : str) :
  ascii_isdecimal d = true ->
  (forall p, match_here db r p (d :: rest) = Some out) ->
  forall p,
    match_here db (Rep Space 0 :: One (Lit NL) :: r) p (NL :: d :: rest)
    = Some out.
Proof.
  intros Hd Hr p. destruct (digit_in_class d Hd) as [_ [Hsp Hnl]].
  cbn [match_here rep_greedy pred].
  replace (in_class db Space NL) with true by reflexivity.
  rewrite Hsp. unfold in_class at 1. rewrite Hnl.
  rewrite lit_in_class. apply Hr.
Qed.

(** [\s*] before a character that is not whitespace takes the space. *)
Lemma match_one_space (r : regex) (rest out : str) :
  match rest with c :: _ => in_class db Space c = false | [] => True end ->
  (forall p, match_here db r p rest = Some out) ->
  forall p, match_here db (Rep Space 0 :: r) p (32%N :: rest) = Some out.
Proof.
  intros Hrest Hr p. cbn [match_here].
  apply (@rep_greedy_whole_run Space (match_here db r) rest out Hrest Hr
           [32%N] 0 p).
  - constructor; [reflexivity | constructor].
  - simpl. lia.
Qed.

(** The header of a well-formed cue is matched whole by the first
    pattern. *)
Lemma cue_header_matches (c : cue) (rest : str) :
  cue_ok db c ->
  forall p,
    match_here db cue_header p (cue_header_text c ++ rest) = Some rest.
Proof.
  intros [[Hne Hidx] Hstart Hstop _ _ _] p.
  destruct (stamp_head _ Hstart) as [d1 [t1 [Es1 Hd1]]].
  destruct (stamp_head _ Hstop) as [d2 [t2 [Es2 Hd2]]].
  assert (Hin : cue_header_text c ++ rest
                = cue_index c
                  ++ NL :: d1 :: t1
                  ++ 32%N :: u "-->" ++ 32%N :: d2 :: t2 ++ rest).
  { unfold cue_header_text. rewrite Es1, Es2.
    repeat (rewrite <- app_assoc; cbn [app]).
    reflexivity. }
  rewrite Hin. rewrite Es1 in Hstart. rewrite Es2 in Hstop.
  destruct (digit_in_class d2 Hd2) as [_ [Hsp2 _]].
  change cue_header
    with (Rep Digit 1
            :: Rep Space 0 :: One (Lit NL)
            :: timestamp
               ++ Rep Space 0
                  :: List.map (fun x => One (Lit x)) (u "-->")
                     ++ Rep Space 0 :: timestamp ++ []).
  change (match_here db (Rep Digit 1 :: ?r) p ?s)
    with (rep_greedy db Digit (match_here db r) 1 p s).
  (* \d+ takes the whole number *)
  apply rep_greedy_whole_run.
  - reflexivity.
  - (* \s* gives the newline back to \n *)
    apply match_spaces_newline; [exact Hd1 |]. intros p2.
    change (d1 :: t1 ++ ?x) with ((d1 :: t1) ++ x).
    apply match_timestamp; [exact Hstart |].
    (* \s*-->\s* around the arrow *)
    apply match_one_space; [reflexivity |].
    apply match_lit.
    apply match_one_space; [exact Hsp2 |]. intros p3.
    change (d2 :: t2 ++ rest) with ((d2 :: t2) ++ rest).
    apply match_timestamp; [exact Hstop |]. reflexivity.
  - clear - Hidx. unfold all_digits in Hidx.
    rewrite forallb_forall in Hidx. apply Forall_forall.
    intros x Hx. apply (digit_in_class x (Hidx x Hx)).
  - destruct (cue_index c); [contradiction | simpl; lia].
Qed.

Lemma rep_greedy_prev (k : char_class)
    (cont : option N -> str -> option str) :
  (forall p p' s, cont p s = cont p' s) ->
  forall s least p p',
    rep_greedy db k cont least p s = rep_greedy db k cont least p' s.
Proof.
  intros Hcont. induction s as [| c s IH]; intros least p p'; simpl.
  - destruct least; [apply Hcont | reflexivity].
  - rewrite (Hcont p p'). reflexivity.
Qed.

(** Without [^] in the pattern the character before the position plays no
    part. *)
Lemma match_here_prev (r : regex) :
  no_bol r = true ->
  forall p p' s, match_here db r p s = match_here db r p' s.
Proof.
  induction r as [| a r IH]; intros Hr p p' s; [reflexivity |].
  simpl in Hr. apply andb_true_iff in Hr. destruct Hr as [Ha Hr].
  destruct a as [k | k least | |]; simpl.
  - reflexivity.
  - apply rep_greedy_prev. intros. now apply IH.
  - discriminate Ha.
  - destruct (at_eol s); [now apply IH | reflexivity].
Qed.

Lemma sub_from_prev (r : regex) (repl : str) :
  no_bol r = true ->
  forall n p p' s, sub_from db r repl n p s = sub_from db r repl n p' s.
Proof.
  intros Hr n p p' s. destruct s as [| c s]; destruct n; simpl;
    try rewrite (@match_here_prev r Hr p p'); reflexivity.
Qed.

Lemma sub_from_skip (r : regex) (repl : str) :
  no_bol r = true ->
  forall n s p, n <= List.length s ->
    sub_from db r repl n p s = sub_from db r repl 0 None (skipn n s).
Proof.
  intros Hr. induction n as [| n IH]; intros s p Hn.
  - apply sub_from_prev. exact Hr.
  - destruct s as [| c s]; [simpl in Hn; lia |].
    simpl. apply IH. simpl in Hn. lia.
Qed.

Lemma skipn_length_app {A} (a b : list A) : skipn (List.length a) (a ++ b) = b.
Proof. induction a as [| x a IH]; [reflexivity | exact IH]. Qed.

(** A match at the current position is replaced and the scan goes on after
    it. *)
Lemma sub_from_hit (r : regex) (repl : str) (m rest : str) (p : option N) :
  no_bol r = true -> m <> [] ->
  match_here db r p (m ++ rest) = Some rest ->
  sub_from db r repl 0 p (m ++ rest) = repl ++ sub_from db r repl 0 None rest.
Proof.
  intros Hr Hm Hmatch. destruct m as [| c m]; [contradiction |].
  cbn [app] in *. cbn [sub_from]. rewrite Hmatch.
  replace (List.length (c :: m ++ rest) - List.length rest)
    with (S (List.length m)) by (cbn [List.length]; rewrite length_app; lia).
  rewrite sub_from_skip by (try assumption; rewrite length_app; lia).
  now rewrite skipn_length_app.
Qed.

(** Characters at which the pattern cannot match are copied. *)
Lemma sub_from_copy (r : regex) (repl : str) (P : N -> Prop) :
  no_bol r = true ->
  (forall p s,
     match s with c :: _ => P c | [] => True end ->
     match_here db r p s = None) ->
  forall a b p, Forall P a ->
    sub_from db r repl 0 p (a ++ b) = a ++ sub_from db r repl 0 None b.
Proof.
  intros Hr Hno. induction a as [| c a IH]; intros b p Ha.
  - apply sub_from_prev. exact Hr.
  - inversion Ha as [| ? ? Hc Ha']; subst.
    cbn [app sub_from]. rewrite Hno by exact Hc. f_equal. now apply IH.
Qed.

Lemma newline_not_digit_all (tail : str) :
  Forall (eq NL) tail -> digit_free db tail.
Proof.
  intros H. unfold digit_free. apply Forall_forall. intros c Hc.
  rewrite Forall_forall in H. now rewrite <- (H c Hc).
Qed.

(** The first substitution takes the headers of the cues out of the
    file. *)
Lemma cue_headers_removed (cues : list cue) (tail : str) :
  Forall (cue_ok db) cues -> Forall (eq NL) tail ->
  sub_from db cue_header [] 0 None (render_srt cues tail)
  = without_headers cues tail.
Proof.
  intros Hcues Htail.
  pose proof (newline_not_digit_all Htail) as Htd.
  induction cues as [| c cs IH].
  - simpl render_srt. simpl without_headers.
    apply (@sub_from_no_match db cue_header []
             (fun c => py_isdecimal db c = false)).
    + intros. now apply cue_header_no_match.
    + exact Htd.
  - inversion Hcues as [| ? ? Hc Hcs]; subst. specialize (IH Hcs).
    assert (Htext : digit_free db (cue_text c)) by apply Hc.
    assert (Hhead : cue_header_text c <> []).
    { unfold cue_header_text. destruct Hc as [[Hne _] _ _ _ _ _].
      destruct (cue_index c); [contradiction | discriminate]. }
    destruct cs as [| c' cs].
    + cbn [render_srt without_headers]. unfold render_cue.
      rewrite <- app_assoc.
      rewrite sub_from_hit;
        [| reflexivity | exact Hhead | now apply cue_header_matches].
      cbn [app].
      apply (@sub_from_no_match db cue_header []
               (fun c => py_isdecimal db c = false)).
      * intros. now apply cue_header_no_match.
      * constructor; [reflexivity |]. apply Forall_app. now split.
    + change (render_srt (c :: c' :: cs) tail)
        with (render_cue c ++ [NL; NL] ++ render_srt (c' :: cs) tail).
      change (without_headers (c :: c' :: cs) tail)
        with (NL :: cue_text c ++ [NL; NL]
              ++ without_headers (c' :: cs) tail).
      unfold render_cue. rewrite <- app_assoc.
      rewrite sub_from_hit;
        [| reflexivity | exact Hhead | now apply cue_header_matches].
      cbn [app].
      change (NL :: cue_text c ++ NL :: NL :: render_srt (c' :: cs) tail)
        with ((NL :: cue_text c) ++ [NL; NL] ++ render_srt (c' :: cs) tail).
      rewrite app_assoc.
      rewrite (@sub_from_copy cue_header []
                 (fun c => py_isdecimal db c = false)).
      * rewrite IH. rewrite <- app_assoc. reflexivity.
      * reflexivity.
      * intros. now apply cue_header_no_match.
      * apply Forall_app. split.
        -- constructor; [reflexivity | exact Htext].
        -- repeat constructor.
Qed.

End CueFacts.

Section CueTextFacts.

Variable db : UnicodeDb.

Local Arguments N.eqb : simpl never.

Lemma last_app_nonempty {A} (a b : list A) (d : A) :
  b <> [] -> last (a ++ b) d = last b d.
Proof.
  intros Hb. induction a as [| x a IH]; [reflexivity |].
  simpl. destruct (a ++ b) eqn:E; [| exact IH].
  destruct a; [simpl in E; contradiction | discriminate E].
Qed.

Lemma last_cons_default {A} (x : A) (l : list A) (d d' : A) :
  last (x :: l) d = last (x :: l) d'.
Proof.
  revert x. induction l as [| y l IH]; intros x; [reflexivity |].
  exact (IH y).
Qed.

Lemma space_not_newline_free (c : N) : py_isspace db c = false -> N.eqb c NL = false.
Proof.
  intros H. apply N.eqb_neq. intros ->. discriminate H.
Qed.

(** A text without blank run that does not end with a newline goes through
    the collapse as it is, whatever follows. *)
Lemma squeeze_app_text (t rest : str) :
  t <> [] -> has_blank_run t = false ->
  (forall d, N.eqb (last t d) NL = false) ->
  squeeze (t ++ rest) = t ++ squeeze rest.
Proof.
  induction t as [| a t IH]; intros Hne Hrun Hlast; [contradiction |].
  destruct t as [| b t].
  - cbn [app]. apply squeeze_head. exact (Hlast a).
  - cbn [app] in *.
    change (squeeze (a :: b :: t ++ rest))
      with (if (N.eqb a NL && N.eqb b NL)%bool then squeeze (b :: t ++ rest)
            else a :: squeeze (b :: t ++ rest)).
    change (has_blank_run (a :: b :: t))
      with ((N.eqb a NL && N.eqb b NL) || has_blank_run (b :: t)) in Hrun.
    apply orb_false_iff in Hrun. destruct Hrun as [H1 H2].
    rewrite H1. f_equal. apply IH; [discriminate | exact H2 |].
    intros d. exact (Hlast d).
Qed.

Lemma trimmed_ends (t : str) :
  trimmed db t ->
  t <> []
  /\ (forall d, N.eqb (last t d) NL = false)
  /\ (forall d, py_isspace db (last t d) = false)
  /\ exists c t', t = c :: t' /\ py_isspace db c = false.
Proof.
  unfold trimmed. destruct t as [| c t]; [contradiction |].
  intros [Hc Hl]. split; [discriminate |].
  assert (Hd : forall d, py_isspace db (last (c :: t) d) = false).
  { intros d. now rewrite (last_cons_default c t d c). }
  split; [| split; [exact Hd |]].
  - intros d. apply space_not_newline_free. apply Hd.
  - exists c, t. now split.
Qed.

Lemma without_headers_head (cues : list cue) (tail : str) :
  cues <> [] -> exists w, without_headers cues tail = NL :: w.
Proof.
  destruct cues as [| c [| c' cs]]; [contradiction | |]; intros _;
    eexists; reflexivity.
Qed.

(** The collapse of the blank runs leaves the texts a newline apart. *)
Lemma squeeze_without_headers (cues : list cue) (tail : str) :
  cues <> [] -> Forall (cue_ok db) cues ->
  squeeze (without_headers cues tail)
  = NL :: join_lines (List.map cue_text cues) ++ squeeze tail.
Proof.
  intros Hne Hcues. induction cues as [| c cs IH]; [contradiction |].
  inversion Hcues as [| ? ? Hc Hcs]; subst.
  destruct (trimmed_ends _ (text_trimmed Hc))
    as [Htne [Hnl [_ [c0 [t0 [Et Hc0]]]]]].
  assert (Hrun0 : forall rest, newline_run (cue_text c ++ rest) = 0).
  { intros rest. rewrite Et. cbn [app newline_run].
    rewrite N.eqb_sym. now rewrite (space_not_newline_free _ Hc0). }
  destruct cs as [| c' cs].
  - cbn [without_headers List.map join_lines].
    rewrite squeeze_newline, Hrun0.
    rewrite squeeze_app_text; [reflexivity | exact Htne | apply Hc | exact Hnl].
  - assert (Hcs' : c' :: cs <> []) by discriminate.
    specialize (IH Hcs' Hcs).
    change (without_headers (c :: c' :: cs) tail)
      with (NL :: cue_text c ++ [NL; NL] ++ without_headers (c' :: cs) tail).
    change (join_lines (List.map cue_text (c :: c' :: cs)))
      with (cue_text c ++ NL :: join_lines (List.map cue_text (c' :: cs))).
    rewrite squeeze_newline, Hrun0.
    rewrite squeeze_app_text; [| exact Htne | apply Hc | exact Hnl].
    destruct (without_headers_head tail Hcs') as [w Hw].
    cbn [app]. rewrite Hw in *.
    rewrite squeeze_newline. cbn [newline_run]. rewrite N.eqb_refl.
    rewrite squeeze_newline. cbn [newline_run]. rewrite N.eqb_refl.
    rewrite IH. rewrite <- app_assoc. reflexivity.
Qed.

Lemma without_headers_digit_free (cues : list cue) (tail : str) :
  Forall (cue_ok db) cues -> Forall (eq NL) tail ->
  digit_free db (without_headers cues tail).
Proof.
  intros Hcues Htail. pose proof (newline_not_digit_all db Htail) as Htd.
  unfold digit_free in *.
  induction cues as [| c cs IH]; [exact Htd |].
  inversion Hcues as [| ? ? Hc Hcs]; subst. specialize (IH Hcs).
  assert (Htext : digit_free db (cue_text c)) by apply Hc.
  destruct cs as [| c' cs].
  - cbn [without_headers]. constructor; [reflexivity |].
    apply Forall_app. now split.
  - change (without_headers (c :: c' :: cs) tail)
      with (NL :: cue_text c ++ [NL; NL] ++ without_headers (c' :: cs) tail).
    constructor; [reflexivity |]. apply Forall_app. split; [exact Htext |].
    apply Forall_app. split; [repeat constructor | exact IH].
Qed.

Lemma join_lines_trimmed (texts : list str) :
  texts <> [] -> Forall (trimmed db) texts -> trimmed db (join_lines texts).
Proof.
  intros Hne H. induction texts as [| t ts IH]; [contradiction |].
  inversion H as [| ? ? Ht Hts]; subst.
  destruct ts as [| t' ts]; [exact Ht |].
  assert (Hts' : t' :: ts <> []) by discriminate.
  specialize (IH Hts' Hts).
  change (join_lines (t :: t' :: ts))
    with (t ++ NL :: join_lines (t' :: ts)).
  destruct (trimmed_ends _ Ht) as [_ [_ [_ [c [t0 [-> Hc]]]]]].
  destruct (trimmed_ends _ IH) as [Hjne [_ [Hlast _]]].
  unfold trimmed. cbn [app]. split; [exact Hc |].
  replace (c :: t0 ++ NL :: join_lines (t' :: ts))
    with ((c :: t0 ++ [NL]) ++ join_lines (t' :: ts))
    by (cbn [app]; now rewrite <- app_assoc).
  rewrite last_app_nonempty by exact Hjne. apply Hlast.
Qed.

Lemma lstrip_spaces (ws s : str) :
  Forall (fun c => py_isspace db c = true) ws ->
  lstrip db (ws ++ s) = lstrip db s.
Proof.
  induction 1 as [| c ws Hc _ IH]; [reflexivity |].
  cbn [app lstrip]. now rewrite Hc.
Qed.

(** Whitespace around a text that neither starts nor ends with whitespace
    is what [strip] removes. *)
Lemma py_strip_wrapped (ws1 t ws2 : str) :
  trimmed db t ->
  Forall (fun c => py_isspace db c = true) ws1 ->
  Forall (fun c => py_isspace db c = true) ws2 ->
  py_strip db (ws1 ++ t ++ ws2) = t.
Proof.
  intros Ht H1 H2.
  destruct (trimmed_ends _ Ht) as [Hne [_ [Hlast [c [t0 [Et Hc]]]]]].
  unfold py_strip. rewrite lstrip_spaces by exact H1.
  rewrite (lstrip_fixed db (t ++ ws2)) by (rewrite Et; exact Hc).
  unfold rstrip. rewrite rev_app_distr.
  rewrite lstrip_spaces by (apply Forall_rev; exact H2).
  rewrite lstrip_fixed; [apply rev_involutive |].
  destruct (rev t) as [| x r] eqn:Er.
  - exact I.
  - replace x with (last t x); [apply Hlast |].
    rewrite <- (rev_involutive t), Er. simpl rev. apply last_last.
Qed.

Lemma squeeze_newlines_space (tail : str) :
  Forall (eq NL) tail ->
  Forall (fun c => py_isspace db c = true) (squeeze tail).
Proof.
  intros H. apply squeeze_Forall. apply Forall_forall. intros c Hc.
  rewrite Forall_forall in H. now rewrite <- (H c Hc).
Qed.

(** The text of a well-formed subtitle file after decoding. *)
Lemma normalize_text_cues (cues : list cue) (tail : str) :
  cues <> [] -> Forall (cue_ok db) cues -> Forall (eq NL) tail ->
  normalize_text db (render_srt cues tail)
  = join_lines (List.map cue_text cues).
Proof.
  intros Hne Hcues Htail. unfold normalize_text, re_sub.
  rewrite cue_headers_removed by assumption.
  fold (re_sub db blank_run [NL] (without_headers cues tail)).
  rewrite re_sub_blank_run.
  rewrite (@sub_from_no_match db number_line []
             (fun c => py_isdecimal db c = false)).
  - rewrite squeeze_without_headers by assumption.
    apply (@py_strip_wrapped [NL] _ (squeeze tail)).
    + apply join_lines_trimmed.
      * destruct cues; [contradiction | discriminate].
      * apply Forall_forall. intros t Ht. apply in_map_iff in Ht.
        destruct Ht as [c [<- Hc]]. rewrite Forall_forall in Hcues.
        apply (text_trimmed (Hcues c Hc)).
    + repeat constructor.
    + now apply squeeze_newlines_space.
  - intros. now apply number_line_no_match.
  - apply squeeze_Forall. now apply without_headers_digit_free.
Qed.

End CueTextFacts.

(** X21.  The bytes of a well-formed subtitle file (cues a blank line apart,
    each made of a number, a line "HH:MM:SS,mmm --> HH:MM:SS,mmm" and a text,
    any number of newlines at the end) whose texts have no digit, no blank
    line and no whitespace at either end, give the texts of the cues, in
    order, a newline apart. *)
Theorem srt_file_plain_text
    (db : UnicodeDb) (cues : list cue) (tail : str) (x : list byte) :
  cues <> [] ->
  Forall (cue_ok db) cues ->
  Forall (eq NL) tail ->
  utf8_decode_ignore x = render_srt cues tail ->
  srt_to_plain_text db x = join_lines (List.map cue_text cues).
Proof.
  intros Hne Hcues Htail Hx. unfold srt_to_plain_text. rewrite Hx.
  now apply normalize_text_cues.
Qed.

Lemma srt_file_plain_text_witness :
  srt_to_plain_text ascii_only_db sample_file
  = join_lines (List.map cue_text [sample_cue; second_cue]).
Proof.
  apply (@srt_file_plain_text ascii_only_db [sample_cue; second_cue] [NL]
           sample_file).
  - discriminate.
  - repeat (constructor;
            [constructor;
             [ split; [discriminate | reflexivity]
             | reflexivity
             | reflexivity
             | vm_compute; repeat constructor
             | reflexivity
             | vm_compute; split; reflexivity ] |]).
    constructor.
  - repeat constructor.
  - vm_compute. reflexivity.
Defined.

(** X22.  The text that [srt_to_plain_text] returns never starts and never
    ends with whitespace, whatever the bytes. *)
Theorem srt_plain_text_is_stripped (db : UnicodeDb) (x : list byte) :
  match srt_to_plain_text db x with
  | [] => True
  | c :: rest =>
      py_isspace db c = false /\ py_isspace db (last (c :: rest) c) = false
  end.
Proof.
  unfold srt_to_plain_text, normalize_text.
  set (t := re_sub db number_line [] _). clearbody t.
  unfold py_strip.
  pose proof (lstrip_head db t) as Hh.
  destruct (rstrip_prefix db (lstrip db t)) as [r Hr].
  pose proof (lstrip_head db (rev (lstrip db t))) as Hl.
  unfold rstrip in *.
  destruct (rev (lstrip db (rev (lstrip db t)))) as [| c rest] eqn:E;
    [exact I |].
  split.
  - rewrite Hr in Hh. exact Hh.
  - assert (Hrev : lstrip db (rev (lstrip db t)) = rev (c :: rest))
      by (rewrite <- E; now rewrite rev_involutive).
    rewrite Hrev in Hl.
    destruct (rev (c :: rest)) as [| y l] eqn:Ey.
    + apply (f_equal (@List.length N)) in Ey. rewrite length_rev in Ey.
      discriminate Ey.
    + replace (last (c :: rest) c) with y; [exact Hl |].
      rewrite <- (rev_involutive (c :: rest)), Ey. simpl rev.
      symmetry. apply last_last.
Qed.

(** X23.  Decoding undoes encoding: a text made of Unicode scalar values has
    a UTF-8 encoding, and the lenient decoder of [srt_to_plain_text] reads it
    back unchanged; and whatever the bytes, the decoder yields scalar values
    only. *)
Theorem utf8_decode_after_encode (s : str) (x : list byte) :
  Forall (fun c => is_scalar c = true) (utf8_decode_ignore x)
  /\ (Forall (fun c => is_scalar c = true) s ->
      exists b, utf8_encode s = Some b /\ utf8_decode_ignore b = s).
Proof.
  split; [apply utf8_decode_ignore_scalar | apply utf8_round_trip].
Qed.

Lemma utf8_decode_after_encode_witness :
  exists b,
    utf8_encode [233; 8364; 128512]%N = Some b
    /\ utf8_decode_ignore b = [233; 8364; 128512]%N.
Proof.
  apply (proj2 (@utf8_decode_after_encode [233; 8364; 128512]%N [])).
  repeat constructor.
Defined.
